(** * The DPX loader of plug-ins/common/file-dpx.c

    A shallow embedding of [load_image] and [dpx_load] together with the
    parts of stdio, GLib and libgimp they call.  The C code threads three
    pieces of mutable state through its calls: the stdio stream [fp], the
    caller's [GError *] behind the out-parameter [error], and [errno].
    They are kept in a [State] record and the procedures are written in a
    small state monad, statement for statement. *)

From Stdlib Require Import ZArith List String Ascii Bool Lia Btauto.
From Stdlib.Strings Require Import Byte.
From Stdlib Require Import DecimalString.
Import ListNotations.

Local Open Scope Z_scope.

(** ** The host: what config.h, GLib and libgimp fix for a build *)

Inductive ByteOrder := G_LITTLE_ENDIAN | G_BIG_ENDIAN.

(** Constants and library functions the plug-in uses and does not define. *)
Record Host := mkHost {
  G_BYTE_ORDER : ByteOrder;
  G_MAXSIZE : Z;                        (* largest value of a gsize *)
  GIMP_MAX_IMAGE_SIZE : Z;              (* libgimpbase/gimplimits.h *)
  g_file_error_from_errno : Z -> Z;     (* GFileError code of an errno *)
  g_strerror : Z -> string;
  heap_grants : Z -> bool               (* can malloc serve n bytes now? *)
}.

(** ** GError *)

Inductive GQuark := G_FILE_ERROR | GIMP_PLUG_IN_ERROR.

Record GError := mkGError {
  domain : GQuark;
  code : Z;
  message : string
}.

(** ** stdio streams over an in-memory file system *)

Inductive Inode :=
| Unreadable (err : Z)            (* fopen fails and leaves [err] in errno *)
| Regular (contents : list byte).

Record GFile := mkGFile {
  g_file_peek_path : string;
  gimp_file_get_utf8_name : string
}.

Record FILE := mkFILE {
  f_data : list byte;
  f_pos : nat
}.

(** ** What GIMP holds for an image *)

Inductive GimpImageBaseType := GIMP_RGB | GIMP_GRAY | GIMP_INDEXED.
Inductive GimpPrecision := GIMP_PRECISION_U16_NON_LINEAR.
Inductive GimpImageType := GIMP_RGBA_IMAGE.

(** One row of a layer's buffer in the format "R'G'B'A u16": the samples
    R, G, B, A of each pixel, left to right. *)
Definition Row := list Z.

Record GimpLayer := mkLayer {
  l_name : string;
  l_width : Z;
  l_height : Z;
  l_type : GimpImageType;
  l_opacity : Z;
  l_buffer : list Row
}.

Record GimpImage := mkImage {
  i_width : Z;
  i_height : Z;
  i_base_type : GimpImageBaseType;
  i_precision : GimpPrecision;
  i_layers : list GimpLayer
}.

(** A [GimpImage *] is [None] for NULL, or the index of the image among
    those GIMP holds. *)
Definition GimpImagePtr := option nat.

(** ** Calls observed from outside the process *)

Inductive Event :=
| Ev_fopen (path : string) (ok : bool)
| Ev_fread (offset size nmemb ret : nat)
| Ev_fseek (offset : Z) (ret : Z)
| Ev_fclose
| Ev_malloc (n_bytes : Z) (ok : bool)
| Ev_free
| Ev_image_new (width height : Z)
| Ev_buffer_set (row : Z).

(** ** Program state *)

Record State := mkState {
  st_fs : string -> Inode;
  st_errno : Z;
  st_fp : option FILE;            (* the stream [fp], while it is open *)
  st_error : option GError;       (* [*error], NULL when [None] *)
  st_images : list GimpImage;     (* images GIMP holds *)
  st_trace : list Event           (* oldest first *)
}.

Definition M (A : Type) : Type := State -> A * State.

Definition ret {A} (a : A) : M A := fun s => (a, s).

Definition bind {A B} (m : M A) (k : A -> M B) : M B :=
  fun s => let (a, s') := m s in k a s'.

Declare Scope dpx_scope.
Delimit Scope dpx_scope with dpx.
Notation "x <- m ;; k" := (bind m (fun x => k))
  (at level 61, m at next level, right associativity) : dpx_scope.
Notation "' pat <- m ;; k" := (bind m (fun x => match x with pat => k end))
  (at level 61, pat pattern, m at next level, right associativity) : dpx_scope.
Notation "m ;; k" := (bind m (fun _ => k))
  (at level 61, right associativity) : dpx_scope.
Local Open Scope dpx_scope.

Definition emit (e : Event) : M unit :=
  fun s => (tt, mkState (st_fs s) (st_errno s) (st_fp s) (st_error s)
                        (st_images s) (st_trace s ++ [e])).

Definition get_errno : M Z := fun s => (st_errno s, s).

Definition set_errno (e : Z) : M unit :=
  fun s => (tt, mkState (st_fs s) e (st_fp s) (st_error s)
                        (st_images s) (st_trace s)).

Definition set_fp (fp : option FILE) : M unit :=
  fun s => (tt, mkState (st_fs s) (st_errno s) fp (st_error s)
                        (st_images s) (st_trace s)).

(** [g_fopen (path, "rb")]: the result says whether [fp] is non-NULL. *)
Definition g_fopen (path : string) : M bool :=
  fun s =>
    match st_fs s path with
    | Unreadable err =>
        (set_errno err ;; emit (Ev_fopen path false) ;; ret false) s
    | Regular contents =>
        (set_fp (Some (mkFILE contents 0)) ;;
         emit (Ev_fopen path true) ;; ret true) s
    end.

(** [fread (ptr, size, nmemb, fp)]: the bytes stored at [ptr] and the number
    of complete items among them.  The stream advances over every byte that
    was transferred, also those of an incomplete last item.  Reaching the
    end of the file is not an error and leaves errno alone. *)
Definition fread (size nmemb : nat) : M (nat * list byte) :=
  fun s =>
    match st_fp s with
    | None => (0%nat, [], s)
    | Some fp =>
        let got := firstn (size * nmemb) (skipn (f_pos fp) (f_data fp)) in
        let n := if (size =? 0)%nat then 0%nat
                 else (List.length got / size)%nat in
        (set_fp (Some (mkFILE (f_data fp) (f_pos fp + List.length got))) ;;
         emit (Ev_fread (f_pos fp) size nmemb n) ;;
         ret (n, got)) s
    end.

(** [fseek (fp, offset, SEEK_SET)] on a regular file: any offset from 0 on
    is accepted, also one past the end. *)
Definition fseek (offset : Z) : M Z :=
  fun s =>
    match st_fp s with
    | None => (-1, s)
    | Some fp =>
        if offset <? 0
        then (emit (Ev_fseek offset (-1)) ;; ret (-1)) s
        else (set_fp (Some (mkFILE (f_data fp) (Z.to_nat offset))) ;;
              emit (Ev_fseek offset 0) ;; ret 0) s
    end.

Definition fclose : M unit := set_fp None ;; emit Ev_fclose.

(** [g_set_error (error, domain, code, message)]: stores a new GError where
    [*error] is NULL, and leaves an error that is already there in place. *)
Definition g_set_error (d : GQuark) (c : Z) (msg : string) : M unit :=
  fun s =>
    match st_error s with
    | Some _ => (tt, s)
    | None => (tt, mkState (st_fs s) (st_errno s) (st_fp s)
                           (Some (mkGError d c msg))
                           (st_images s) (st_trace s))
    end.

(** ** load_image, as compiled

    Everything between the read of the magic number and [return image] is
    inside one comment in the C file, so the function ends right after that
    read, with [image] still holding its initial NULL.  The stream is not
    closed on that path. *)
Section Loader.

Context (host : Host).

Definition load_image (file : GFile) : M GimpImagePtr :=
  let image : GimpImagePtr := None in
  fp <- g_fopen (g_file_peek_path file) ;;
  if negb fp then
    errno <- get_errno ;;
    g_set_error G_FILE_ERROR (g_file_error_from_errno host errno)
      ("Could not open '" ++ gimp_file_get_utf8_name file
         ++ "' for reading: " ++ g_strerror host errno)%string ;;
    ret None
  else
    (* Load the header *)
    '(n, magic_number) <- fread 4 1 ;;
    if (n =? 0)%nat then
      errno <- get_errno ;;
      g_set_error G_FILE_ERROR (g_file_error_from_errno host errno)
        "Failed to read Dpx header" ;;
      fclose ;;
      ret None
    else
      ret image.

End Loader.

(** ** dpx_load, the procedure GIMP runs *)

Inductive GimpPDBStatusType := GIMP_PDB_EXECUTION_ERROR | GIMP_PDB_SUCCESS.

Record GimpValueArray := mkValues {
  rv_status : GimpPDBStatusType;
  rv_error : option GError;
  rv_image : GimpImagePtr
}.

Definition gimp_procedure_new_return_values
    (status : GimpPDBStatusType) (error : option GError) : GimpValueArray :=
  mkValues status error None.

Definition GIMP_VALUES_SET_IMAGE (v : GimpValueArray) (image : GimpImagePtr)
    : GimpValueArray :=
  mkValues (rv_status v) (rv_error v) image.

Definition get_error : M (option GError) := fun s => (st_error s, s).

Definition clear_error : M unit :=
  fun s => (tt, mkState (st_fs s) (st_errno s) (st_fp s) None
                        (st_images s) (st_trace s)).

Section Procedure.

Context (host : Host).

Definition dpx_load (file : GFile) : M GimpValueArray :=
  clear_error ;;                                  (* GError *error = NULL *)
  image <- load_image host file ;;
  match image with
  | None =>
      error <- get_error ;;
      ret (gimp_procedure_new_return_values GIMP_PDB_EXECUTION_ERROR error)
  | Some _ =>
      let return_vals :=
        gimp_procedure_new_return_values GIMP_PDB_SUCCESS None in
      ret (GIMP_VALUES_SET_IMAGE return_vals image)
  end.

End Procedure.

(** ** What the plug-in registers with GIMP *)

Definition LOAD_PROC : string := "file-dpx-load".

Inductive GimpPDBProcType := GIMP_PDB_PROC_TYPE_PLUGIN.

(** A procedure as [gimp_load_procedure_new] and the setters leave it: its
    run function is what GIMP calls to load a file. *)
Record GimpProcedure := mkProcedure {
  p_name : string;
  p_proc_type : GimpPDBProcType;
  p_run : GFile -> M GimpValueArray;
  p_menu_label : string;
  p_blurb : string;
  p_help : string;
  p_help_id : string;
  p_authors : string;
  p_copyright : string;
  p_date : string;
  p_extensions : string;
  p_magics : string
}.

Definition dpx_query_procedures : list string := [LOAD_PROC].

Section Registration.

Context (host : Host).

Definition dpx_create_procedure (name : string) : option GimpProcedure :=
  if (name =? LOAD_PROC)%string then
    Some (mkProcedure name GIMP_PDB_PROC_TYPE_PLUGIN (dpx_load host)
            "DPX"
            "Load file in the Dpx file format"
            "Load file in the Dpx file format"
            name
            "Alex S." "Alex S." "2023"
            "dpx" "0,string,SDPX")
  else None.

End Registration.

(** The streams a trace leaves open: one more for every [fopen] that gave
    a stream, one less for every [fclose]. *)
Fixpoint open_streams (tr : list Event) : Z :=
  match tr with
  | [] => 0
  | Ev_fopen _ true :: tr' => open_streams tr' + 1
  | Ev_fclose :: tr' => open_streams tr' - 1
  | _ :: tr' => open_streams tr'
  end.


Definition is_free (e : Event) : bool :=
  match e with Ev_free => true | _ => false end.

Definition is_fclose (e : Event) : bool :=
  match e with Ev_fclose => true | _ => false end.

(** The state in which GIMP enters the plug-in: no stream, nothing traced. *)
Definition entry (fs : string -> Inode) (errno : Z) (images : list GimpImage)
    : State :=
  mkState fs errno None None images [].

(** The farthest byte offset any [fread] of a trace asked for. *)
Fixpoint read_extent (tr : list Event) : nat :=
  match tr with
  | [] => 0%nat
  | Ev_fread offset size nmemb _ :: tr' =>
      Nat.max (offset + size * nmemb) (read_extent tr')
  | _ :: tr' => read_extent tr'
  end.

Definition is_fread (e : Event) : bool :=
  match e with Ev_fread _ _ _ _ => true | _ => false end.

Definition is_malloc (e : Event) : bool :=
  match e with Ev_malloc _ _ => true | _ => false end.

(** ** The text inside the comment of load_image

    Lines 210 to 279 of file-dpx.c are one C comment.  The compiler never
    sees them and [load_image] above does not contain them.  They are
    transcribed here, under names of their own, to record what the comment
    holds: [commented_out_body] is its text, and [load_image_with_body] is
    the function one would get by deleting the two comment delimiters. *)

Definition byte_val (b : byte) : Z := Z.of_N (Byte.to_N b).

(** glib's byte-swapping macros (glib/gtypes.h), on 16 and 32 bit values. *)
Definition GUINT16_SWAP_LE_BE (val : Z) : Z :=
  Z.land (Z.lor (Z.shiftr val 8) (Z.shiftl val 8)) 0xFFFF.

Definition GUINT32_SWAP_LE_BE (val : Z) : Z :=
  Z.lor (Z.lor (Z.lor
    (Z.shiftl (Z.land val 0x000000ff) 24)
    (Z.shiftl (Z.land val 0x0000ff00) 8))
    (Z.shiftr (Z.land val 0x00ff0000) 8))
    (Z.shiftr (Z.land val 0xff000000) 24).

(** [update_nth n f l] applies [f] to element [n] of [l], if there is one. *)
Fixpoint update_nth {A} (n : nat) (f : A -> A) (l : list A) : list A :=
  match l, n with
  | [], _ => []
  | x :: l', O => f x :: l'
  | x :: l', S n' => x :: update_nth n' f l'
  end.

(** Memory filled by [fread], read back as an array of guint16. *)
Fixpoint as_guint16s (load : byte -> byte -> Z) (bs : list byte) : list Z :=
  match bs with
  | b0 :: b1 :: bs' => load b0 b1 :: as_guint16s load bs'
  | _ => []
  end.

(** [for (j = 0; j < n; j++) pixels[j] = f (pixels[j]);] *)
Fixpoint convert_in_place (f : Z -> Z) (n : nat) (pixels : list Z) : list Z :=
  match n, pixels with
  | S n', p :: pixels' => f p :: convert_in_place f n' pixels'
  | _, _ => pixels
  end.

(** printf's [%d] applied to a guint32 argument. *)
Definition printf_d (v : Z) : string :=
  NilZero.string_of_int (Z.to_int (if v <? 2 ^ 31 then v else v - 2 ^ 32)).

(** A new layer is fully transparent: every sample of its buffer is 0. *)
Definition gimp_layer_new (name : string) (width height : Z)
    (type : GimpImageType) (opacity : Z) : GimpLayer :=
  mkLayer name width height type opacity
          (repeat (repeat 0 (Z.to_nat (4 * width))) (Z.to_nat height)).

Definition update_image (image : GimpImagePtr) (f : GimpImage -> GimpImage)
    : M unit :=
  fun s =>
    match image with
    | None => (tt, s)
    | Some id =>
        (tt, mkState (st_fs s) (st_errno s) (st_fp s) (st_error s)
                     (update_nth id f (st_images s)) (st_trace s))
    end.

(** [gimp_image_insert_layer (image, layer, NULL, 0)] *)
Definition gimp_image_insert_layer (image : GimpImagePtr) (layer : GimpLayer)
    : M unit :=
  update_image image (fun im =>
    mkImage (i_width im) (i_height im) (i_base_type im) (i_precision im)
            (layer :: i_layers im)).

(** The buffer of the layer at position 0 takes [row] as its row [i]. *)
Definition set_buffer_row (i : Z) (row : Row) (im : GimpImage) : GimpImage :=
  mkImage (i_width im) (i_height im) (i_base_type im) (i_precision im)
    (update_nth 0 (fun l =>
       mkLayer (l_name l) (l_width l) (l_height l) (l_type l) (l_opacity l)
         (update_nth (Z.to_nat i) (fun _ => row) (l_buffer l)))
       (i_layers im)).

(** [gegl_buffer_set (buffer, GEGL_RECTANGLE (0, i, width, 1), ...)] on the
    buffer of the layer inserted at position 0 of [image]: row [i] of the
    buffer takes the first [width * 4] samples of [pixels]. *)
Definition gegl_buffer_set (image : GimpImagePtr) (i width : Z)
    (pixels : list Z) : M unit :=
  update_image image
    (set_buffer_row i (firstn (Z.to_nat (4 * width)) pixels)) ;;
  emit (Ev_buffer_set i).

Section CommentedOut.

Context (host : Host).

(** A guint16 or guint32 object as the host reads the bytes stored in it. *)
Definition load_u16 (b0 b1 : byte) : Z :=
  match G_BYTE_ORDER host with
  | G_LITTLE_ENDIAN => Z.lor (byte_val b0) (Z.shiftl (byte_val b1) 8)
  | G_BIG_ENDIAN => Z.lor (Z.shiftl (byte_val b0) 8) (byte_val b1)
  end.

Definition load_u32 (bs : list byte) : Z :=
  match bs with
  | [b0; b1; b2; b3] =>
      match G_BYTE_ORDER host with
      | G_LITTLE_ENDIAN =>
          Z.lor (Z.lor (Z.lor (byte_val b0) (Z.shiftl (byte_val b1) 8))
                       (Z.shiftl (byte_val b2) 16))
                (Z.shiftl (byte_val b3) 24)
      | G_BIG_ENDIAN =>
          Z.lor (Z.lor (Z.lor (Z.shiftl (byte_val b0) 24)
                              (Z.shiftl (byte_val b1) 16))
                       (Z.shiftl (byte_val b2) 8))
                (byte_val b3)
      end
  | _ => 0
  end.

Definition GUINT16_FROM_BE (val : Z) : Z :=
  match G_BYTE_ORDER host with
  | G_LITTLE_ENDIAN => GUINT16_SWAP_LE_BE val
  | G_BIG_ENDIAN => val
  end.

Definition GUINT32_FROM_BE (val : Z) : Z :=
  match G_BYTE_ORDER host with
  | G_LITTLE_ENDIAN => GUINT32_SWAP_LE_BE val
  | G_BIG_ENDIAN => val
  end.

(** [gimp_image_new_with_precision (width, height, type, precision)]: the
    procedure database of GIMP takes a width and a height from 1 to
    GIMP_MAX_IMAGE_SIZE; for any other the call makes no image and gives
    NULL. *)
Definition gimp_image_new_with_precision (width height : Z)
    (type : GimpImageBaseType) (precision : GimpPrecision) : M GimpImagePtr :=
  fun s =>
    if (1 <=? width) && (width <=? GIMP_MAX_IMAGE_SIZE host)
       && (1 <=? height) && (height <=? GIMP_MAX_IMAGE_SIZE host)
    then
      (Some (List.length (st_images s)),
       mkState (st_fs s) (st_errno s) (st_fp s) (st_error s)
               (st_images s ++ [mkImage width height type precision []])
               (st_trace s ++ [Ev_image_new width height]))
    else
      (None,
       mkState (st_fs s) (st_errno s) (st_fp s) (st_error s) (st_images s)
               (st_trace s ++ [Ev_image_new width height])).

(** [g_size_checked_mul (&dest, a, b)]: the product, unless it overflows. *)
Definition g_size_checked_mul (a b : Z) : option Z :=
  if a * b <=? G_MAXSIZE host then Some (a * b) else None.

(** [g_try_malloc (n_bytes)]: NULL for a request of 0 bytes, and when the
    heap cannot serve it.  The result says whether the pointer is non-NULL. *)
Definition g_try_malloc (n_bytes : Z) : M bool :=
  let ok := negb (n_bytes =? 0) && heap_grants host n_bytes in
  emit (Ev_malloc n_bytes ok) ;; ret ok.

Definition g_free : M unit := emit Ev_free.

(** The scanline loop [for (gint i = 0; i < height; i++)], with [n] rounds
    left to go.  The result is [false] when the loop was left through its
    [return NULL]. *)
Fixpoint scanlines (n : nat) (i : Z) (image : GimpImagePtr)
    (width row_size : Z) : M bool :=
  match n with
  | O => ret true
  | S n' =>
      '(cnt, got) <- fread (Z.to_nat row_size) 1 ;;
      if (cnt =? 0)%nat then
        errno <- get_errno ;;
        g_set_error G_FILE_ERROR (g_file_error_from_errno host errno)
          "Premature end of Dpx pixel data" ;;
        ret false
      else
        let pixels :=
          convert_in_place GUINT16_FROM_BE
            (Z.to_nat ((width * 4) mod 2 ^ 32)) (as_guint16s load_u16 got) in
        gegl_buffer_set image i width pixels ;;
        scanlines n' (i + 1) image width row_size
  end.

(** Lines 210 to 227: the seek and the two reads of the dimensions.  The
    result is [None] when this part was left through a [return NULL]. *)
Definition read_dimensions : M (option (Z * Z)) :=
  rc <- fseek 772 ;;
  if negb (rc =? 0) then
    errno <- get_errno ;;
    g_set_error G_FILE_ERROR (g_file_error_from_errno host errno)
      "Failed to seek to Dpx image dimensions" ;;
    fclose ;;
    ret None
  else
    '(n_width, width_bytes) <- fread 4 1 ;;
    '(n_height, height_bytes) <-
        (if (n_width =? 0)%nat then ret (0%nat, []) else fread 4 1) ;;
    if (n_width =? 0)%nat || (n_height =? 0)%nat then
      errno <- get_errno ;;
      g_set_error G_FILE_ERROR (g_file_error_from_errno host errno)
        "Failed to read Dpx image dimensions" ;;
      fclose ;;
      ret None
    else
      let width := GUINT32_FROM_BE (load_u32 width_bytes) in
      let height := GUINT32_FROM_BE (load_u32 height_bytes) in
      ret (Some (width, height)).

(** Lines 229 to 279: the check of the dimensions, the image, the layer,
    the scanline buffer and the loop. *)
Definition decode_pixels (width height : Z) : M GimpImagePtr :=
  match
    (if (width >? GIMP_MAX_IMAGE_SIZE host)
        || (height >? GIMP_MAX_IMAGE_SIZE host)
     then None else g_size_checked_mul width (2 * 4))
  with
  | None =>
      g_set_error GIMP_PLUG_IN_ERROR 0
        ("Image dimensions too large: width " ++ printf_d width
           ++ " x height " ++ printf_d height)%string ;;
      fclose ;;
      ret None
  | Some row_size =>
      image <- gimp_image_new_with_precision width height GIMP_RGB
                 GIMP_PRECISION_U16_NON_LINEAR ;;
      let layer := gimp_layer_new "Background" width height
                     GIMP_RGBA_IMAGE 100 in
      gimp_image_insert_layer image layer ;;
      pixels <- g_try_malloc row_size ;;
      if negb pixels then
        g_set_error GIMP_PLUG_IN_ERROR 0
          "There was not enough memory to complete the operation." ;;
        fclose ;;
        ret None
      else
        completed <- scanlines (Z.to_nat height) 0 image width row_size ;;
        if negb completed then ret None
        else
          g_free ;;
          fclose ;;
          ret image
  end.

Definition commented_out_body : M GimpImagePtr :=
  dimensions <- read_dimensions ;;
  match dimensions with
  | None => ret None
  | Some (width, height) => decode_pixels width height
  end.

Definition load_image_with_body (file : GFile) : M GimpImagePtr :=
  fp <- g_fopen (g_file_peek_path file) ;;
  if negb fp then
    errno <- get_errno ;;
    g_set_error G_FILE_ERROR (g_file_error_from_errno host errno)
      ("Could not open '" ++ gimp_file_get_utf8_name file
         ++ "' for reading: " ++ g_strerror host errno)%string ;;
    ret None
  else
    '(n, magic_number) <- fread 4 1 ;;
    if (n =? 0)%nat then
      errno <- get_errno ;;
      g_set_error G_FILE_ERROR (g_file_error_from_errno host errno)
        "Failed to read Dpx header" ;;
      fclose ;;
      ret None
    else
      commented_out_body.

End CommentedOut.

(** ** The vocabulary of the specification *)

(** The error kinds of the specification. *)
Inductive DecodeError :=
| BadMagic | TruncatedHeader | SeekError | DimensionsTooLarge
| DimensionOverflow | PrematureEOF | OutOfMemory | IOError.

(** The kind under which the specification files each GError the C text
    can raise, told apart by its message.  No message of the file stands
    for [BadMagic] or for [DimensionOverflow]. *)
Definition error_kind (e : GError) : option DecodeError :=
  let m := message e in
  if prefix "Could not open '" m then Some IOError
  else if (m =? "Failed to read Dpx header")%string then Some TruncatedHeader
  else if (m =? "Failed to seek to Dpx image dimensions")%string
       then Some SeekError
  else if (m =? "Failed to read Dpx image dimensions")%string
       then Some TruncatedHeader
  else if prefix "Image dimensions too large: " m then Some DimensionsTooLarge
  else if (m =? "There was not enough memory to complete the operation.")%string
       then Some OutOfMemory
  else if (m =? "Premature end of Dpx pixel data")%string
       then Some PrematureEOF
  else None.

(** A run failed with kind [k]: NULL came back and [*error] holds an error
    of that kind. *)
Definition fails_with (r : GimpImagePtr * State) (k : DecodeError) : Prop :=
  fst r = None /\
  exists e, st_error (snd r) = Some e /\ error_kind e = Some k.

(** A run succeeded with a raster of [w] x [h] pixels whose rows are
    [rows]: a non-NULL image came back, of these dimensions, carrying one
    RGBA layer of 16 bit samples with that buffer. *)
Definition yields_raster (r : GimpImagePtr * State) (w h : Z)
    (rows : list Row) : Prop :=
  exists id im l,
    fst r = Some id /\ nth_error (st_images (snd r)) id = Some im /\
    i_width im = w /\ i_height im = h /\
    i_precision im = GIMP_PRECISION_U16_NON_LINEAR /\
    i_layers im = [l] /\ l_type l = GIMP_RGBA_IMAGE /\ l_buffer l = rows.

Definition magic_SDPX : list byte := list_byte_of_string "SDPX".
Definition magic_XPDS : list byte := list_byte_of_string "XPDS".

Definition byte_of_Z (z : Z) : byte :=
  match Byte.of_N (Z.to_N (z mod 256)) with Some b => b | None => x00 end.

Definition be16_bytes (v : Z) : list byte :=
  [byte_of_Z (Z.shiftr v 8); byte_of_Z v].

Definition be32_bytes (v : Z) : list byte :=
  [byte_of_Z (Z.shiftr v 24); byte_of_Z (Z.shiftr v 16);
   byte_of_Z (Z.shiftr v 8); byte_of_Z v].

Definition be16 (b0 b1 : byte) : Z := 256 * byte_val b0 + byte_val b1.

Definition be32 (bs : list byte) : option Z :=
  match bs with
  | [b0; b1; b2; b3] =>
      Some (16777216 * byte_val b0 + 65536 * byte_val b1
            + 256 * byte_val b2 + byte_val b3)
  | _ => None
  end.

(** The input file format of the specification: the magic at offset 0,
    width and height as big-endian u32 at offsets 772 and 776, the pixel
    data after them. *)
Definition header_width (contents : list byte) : option Z :=
  be32 (firstn 4 (skipn 772 contents)).

Definition header_height (contents : list byte) : option Z :=
  be32 (firstn 4 (skipn 776 contents)).

Definition pixel_data (contents : list byte) : list byte :=
  skipn 780 contents.

(** The number of complete rows of [w] pixels in the pixel data. *)
Definition complete_rows (w : Z) (contents : list byte) : nat :=
  (List.length (pixel_data contents) / Z.to_nat (w * 4 * 2))%nat.

(** Modelled from the spec: the encoder of the byte-order round trip, which
    the repository does not contain (writing DPX files is a non-goal).  A
    raster goes out as a header with the magic "SDPX" and the dimensions at
    offsets 772 and 776, then every sample as two bytes, high byte first. *)
Definition encode_row (r : Row) : list byte := flat_map be16_bytes r.

Definition encode_dpx (w h : Z) (rows : list Row) : list byte :=
  magic_SDPX ++ repeat x00 768 ++ be32_bytes w ++ be32_bytes h
    ++ flat_map encode_row rows.

(** A raster of [w] x [h] pixels in native order. *)
Definition raster_wf (w h : Z) (rows : list Row) : Prop :=
  List.length rows = Z.to_nat h /\
  Forall (fun r => List.length r = Z.to_nat (4 * w) /\
                   Forall (fun v => 0 <= v < 65536) r) rows.

(** [contents] with its first 4 bytes replaced by [magic]. *)
Definition with_magic (magic contents : list byte) : list byte :=
  magic ++ skipn 4 contents.

(** The state [s] with [contents] as the file at [path]. *)
Definition with_file (path : string) (contents : list byte) (s : State)
    : State :=
  mkState (fun p => if (p =? path)%string then Regular contents
                    else st_fs s p)
          (st_errno s) (st_fp s) (st_error s) (st_images s) (st_trace s).

(** What is to be seen of the stream: whether it is open, and then where it
    stands and the bytes still ahead of it. *)
Definition stream_view (s : State) : option (nat * list byte) :=
  match st_fp s with
  | Some fp => Some (f_pos fp, skipn (f_pos fp) (f_data fp))
  | None => None
  end.

(** Two states that differ at most in the file system and in the first 4
    bytes behind a stream that has moved past them. *)
Definition same_past_magic (s1 s2 : State) : Prop :=
  st_errno s1 = st_errno s2 /\ st_error s1 = st_error s2 /\
  st_images s1 = st_images s2 /\ st_trace s1 = st_trace s2 /\
  match st_fp s1, st_fp s2 with
  | None, None => True
  | Some f1, Some f2 =>
      f_pos f1 = f_pos f2 /\ (4 <= f_pos f1)%nat /\
      skipn 4 (f_data f1) = skipn 4 (f_data f2)
  | _, _ => False
  end.

(** A computation that cannot tell such states apart: it gives the same
    result in both and leaves them as alike as they were. *)
Definition ignores_magic {A} (m : M A) : Prop :=
  forall s1 s2, same_past_magic s1 s2 ->
    fst (m s1) = fst (m s2) /\ same_past_magic (snd (m s1)) (snd (m s2)).

(** ** Concrete hosts and files *)

Definition ENOENT : Z := 2.

Definition linux_amd64 : Host :=
  mkHost G_LITTLE_ENDIAN (2 ^ 64 - 1) 524288
         (fun errno => if errno =? ENOENT then 4 else 24)
         (fun errno => if errno =? ENOENT
                       then "No such file or directory"%string
                       else "Input/output error"%string)
         (fun n => n <=? 2 ^ 32).

(** The same host with a heap that serves 8 bytes at most. *)
Definition small_heap : Host :=
  mkHost (G_BYTE_ORDER linux_amd64) (G_MAXSIZE linux_amd64)
         (GIMP_MAX_IMAGE_SIZE linux_amd64)
         (g_file_error_from_errno linux_amd64) (g_strerror linux_amd64)
         (fun n => n <=? 8).

Definition a_file : GFile := mkGFile "/tmp/a.dpx" "a.dpx".

Definition a_missing_file : GFile := mkGFile "/tmp/none.dpx" "none.dpx".

Definition disk (contents : list byte) : string -> Inode :=
  fun path => if (path =? "/tmp/a.dpx")%string then Regular contents
              else Unreadable ENOENT.

(** Scenario 1 of the specification: a 2 x 1 image. *)
Definition scenario1_pixels : list byte :=
  [x01; x00; x02; x00; x03; x00; xff; xff;
   x04; x00; x05; x00; x06; x00; xff; xff].

Definition scenario1 : list byte :=
  magic_SDPX ++ repeat x00 768 ++ be32_bytes 2 ++ be32_bytes 1
    ++ scenario1_pixels.

(** Scenario 2: the same, with 12 of the 16 bytes of pixel data. *)
Definition scenario2 : list byte :=
  magic_SDPX ++ repeat x00 768 ++ be32_bytes 2 ++ be32_bytes 1
    ++ firstn 12 scenario1_pixels.

(** Scenario 3: the little-endian signature. *)
Definition scenario3 : list byte :=
  magic_XPDS ++ repeat x00 768 ++ be32_bytes 2 ++ be32_bytes 1
    ++ scenario1_pixels.

(** A header announcing a width of 0xFFFFFFFF. *)
Definition huge_width : list byte :=
  magic_SDPX ++ repeat x00 768 ++ be32_bytes 0xFFFFFFFF ++ be32_bytes 1.

Definition one_pixel : list Row := [[1; 2; 3; 4]].

Definition run_load_image (h : Host) (contents : list byte)
    : GimpImagePtr * State :=
  load_image h a_file (entry (disk contents) 0 []).

Definition run_with_body (h : Host) (contents : list byte)
    : GimpImagePtr * State :=
  load_image_with_body h a_file (entry (disk contents) 0 []).

(** ** The rows a decode is to produce *)

(** The samples of one row of pixel data: two bytes each, high byte
    first. *)
Definition decode_row (bs : list byte) : Row := as_guint16s be16 bs.

(** [n] consecutive chunks of [size] bytes. *)
Fixpoint chunks (n size : nat) (bs : list byte) : list (list byte) :=
  match n with
  | O => []
  | S n' => firstn size bs :: chunks n' size (skipn size bs)
  end.

(** The raster held by the pixel data of a file of [w] x [h] pixels. *)
Definition file_rows (w h : Z) (contents : list byte) : list Row :=
  map decode_row (chunks (Z.to_nat h) (Z.to_nat (w * 4 * 2))
                    (pixel_data contents)).

(** Rows written one after the other from row [i] on, as the loop does. *)
Fixpoint write_rows (id : nat) (i : Z) (rows : list Row)
    (images : list GimpImage) : list GimpImage :=
  match rows with
  | [] => images
  | r :: rows' =>
      write_rows id (i + 1) rows' (update_nth id (set_buffer_row i r) images)
  end.

(** What the stream and the buffer see of [n] rounds of the loop that start
    at row [i] and at offset [pos]. *)
Fixpoint row_events (n : nat) (i : Z) (pos size : nat) : list Event :=
  match n with
  | O => []
  | S n' =>
      Ev_fread pos size 1 1 :: Ev_buffer_set i
        :: row_events n' (i + 1) (pos + size) size
  end.

(** * Properties of the compiled code *)

Ltac run_monad :=
  unfold bind, ret, emit, get_errno, set_errno, set_fp, get_error,
    clear_error, fclose, g_set_error; cbn.

Section Compiled.

Context (host : Host).

Local Arguments firstn : simpl never.
Local Arguments skipn : simpl never.
Local Arguments Nat.div : simpl never.

(** The three ways through [load_image]. *)
Lemma load_image_unreadable (file : GFile) (s : State) (err : Z) :
  st_fs s (g_file_peek_path file) = Unreadable err ->
  load_image host file s =
    (None,
     mkState (st_fs s) err (st_fp s)
       (match st_error s with
        | Some e => Some e
        | None =>
            Some (mkGError G_FILE_ERROR (g_file_error_from_errno host err)
                    ("Could not open '" ++ gimp_file_get_utf8_name file
                       ++ "' for reading: " ++ g_strerror host err)%string)
        end)
       (st_images s)
       (st_trace s ++ [Ev_fopen (g_file_peek_path file) false])).
Proof.
  intros Hfs. unfold load_image, bind at 1, g_fopen. rewrite Hfs.
  run_monad. destruct (st_error s); reflexivity.
Qed.

Lemma load_image_short (file : GFile) (s : State) (contents : list byte) :
  st_fs s (g_file_peek_path file) = Regular contents ->
  (List.length contents < 4)%nat ->
  load_image host file s =
    (None,
     mkState (st_fs s) (st_errno s) None
       (match st_error s with
        | Some e => Some e
        | None =>
            Some (mkGError G_FILE_ERROR
                    (g_file_error_from_errno host (st_errno s))
                    "Failed to read Dpx header")
        end)
       (st_images s)
       (st_trace s ++ [Ev_fopen (g_file_peek_path file) true;
                       Ev_fread 0 4 1 0; Ev_fclose])).
Proof.
  intros Hfs Hlen. unfold load_image, bind at 1, g_fopen. rewrite Hfs.
  unfold fread. run_monad.
  rewrite !length_firstn, !length_skipn.
  replace (Nat.min 4 (List.length contents - 0)) with (List.length contents)
    by lia.
  rewrite Nat.div_small by exact Hlen. cbn.
  destruct (st_error s); cbn; rewrite <- !app_assoc; reflexivity.
Qed.

Lemma load_image_long (file : GFile) (s : State) (contents : list byte) :
  st_fs s (g_file_peek_path file) = Regular contents ->
  (4 <= List.length contents)%nat ->
  load_image host file s =
    (None,
     mkState (st_fs s) (st_errno s) (Some (mkFILE contents 4)) (st_error s)
       (st_images s)
       (st_trace s ++ [Ev_fopen (g_file_peek_path file) true;
                       Ev_fread 0 4 1 1])).
Proof.
  intros Hfs Hlen. unfold load_image, bind at 1, g_fopen. rewrite Hfs.
  unfold fread. run_monad.
  rewrite !length_firstn, !length_skipn.
  replace (Nat.min 4 (List.length contents - 0)) with 4%nat by lia. cbn.
  rewrite <- !app_assoc. reflexivity.
Qed.

Lemma read_extent_app (tr tr' : list Event) :
  read_extent (tr ++ tr') = Nat.max (read_extent tr) (read_extent tr').
Proof.
  induction tr as [|e tr IH]; cbn [app read_extent].
  - reflexivity.
  - destruct e; rewrite IH; lia.
Qed.

Lemma error_kind_never_BadMagic (e : GError) : error_kind e <> Some BadMagic.
Proof.
  unfold error_kind.
  repeat match goal with
         | |- context [if ?b then _ else _] => destruct b; try discriminate
         end.
Qed.

Lemma load_image_never_yields_raster (file : GFile) (s : State)
    (w h : Z) (rows : list Row) :
  fst (load_image host file s) = None /\
  ~ yields_raster (load_image host file s) w h rows.
Proof.
  assert (H : fst (load_image host file s) = None).
  { destruct (st_fs s (g_file_peek_path file)) as [err|contents] eqn:Hfs.
    - rewrite (load_image_unreadable _ _ _ Hfs). reflexivity.
    - destruct (lt_dec (List.length contents) 4) as [Hlt|Hge].
      + rewrite (load_image_short _ _ _ Hfs Hlt). reflexivity.
      + rewrite (load_image_long _ _ _ Hfs) by lia. reflexivity. }
  split; [exact H|].
  intros (id & im & l & Hid & _). rewrite H in Hid. discriminate.
Qed.

(** The magic bytes are read and compared with nothing: two files of 4
    bytes or more get the same answer, the same error and the same calls,
    whatever their first bytes are. *)
Lemma magic_is_never_compared (file : GFile) (s : State)
    (fs1 fs2 : string -> Inode) (contents1 contents2 : list byte) :
  fs1 (g_file_peek_path file) = Regular contents1 ->
  fs2 (g_file_peek_path file) = Regular contents2 ->
  (4 <= List.length contents1)%nat -> (4 <= List.length contents2)%nat ->
  let r1 := load_image host file
              (mkState fs1 (st_errno s) (st_fp s) (st_error s) (st_images s)
                 (st_trace s)) in
  let r2 := load_image host file
              (mkState fs2 (st_errno s) (st_fp s) (st_error s) (st_images s)
                 (st_trace s)) in
  fst r1 = fst r2 /\ st_error (snd r1) = st_error (snd r2) /\
  st_images (snd r1) = st_images (snd r2) /\
  st_trace (snd r1) = st_trace (snd r2).
Proof.
  intros H1 H2 Hlen1 Hlen2 r1 r2. subst r1 r2.
  rewrite (load_image_long file _ contents1) by assumption.
  rewrite (load_image_long file _ contents2) by assumption.
  repeat split.
Qed.

(** The one procedure of the plug-in is registered as a loader of DPX
    files, for the extension "dpx" and the signature "SDPX" at offset 0. *)
Lemma load_procedure_registered :
  dpx_query_procedures = ["file-dpx-load"%string] /\
  exists p, dpx_create_procedure host "file-dpx-load" = Some p /\
            p_blurb p = "Load file in the Dpx file format"%string /\
            p_extensions p = "dpx"%string /\
            p_magics p = "0,string,SDPX"%string.
Proof. split; [reflexivity|]. eexists. repeat split. Qed.

(** C2. Whatever the input file is, readable or not, and whatever it
    contains, [load_image] returns NULL and hands no image to GIMP: the
    variable [image] starts as NULL and no compiled statement assigns it,
    the decoding statements being inside a comment. *)
Theorem load_image_returns_NULL (file : GFile) (s : State) :
  fst (load_image host file s) = None /\
  st_images (snd (load_image host file s)) = st_images s.
Proof.
  destruct (st_fs s (g_file_peek_path file)) as [err|contents] eqn:Hfs.
  - rewrite (load_image_unreadable _ _ _ Hfs). split; reflexivity.
  - destruct (lt_dec (List.length contents) 4) as [Hlt|Hge].
    + rewrite (load_image_short _ _ _ Hfs Hlt). split; reflexivity.
    + rewrite (load_image_long _ _ _ Hfs) by lia. split; reflexivity.
Qed.

(** C10. When the read of the 4 magic bytes succeeds, [load_image] returns
    NULL and leaves [*error] as it found it, so [dpx_load], which passes a
    NULL [error], answers GIMP_PDB_EXECUTION_ERROR with a NULL error
    object. *)
Theorem magic_read_leaves_error_unset (file : GFile) (s : State)
    (contents : list byte) :
  st_fs s (g_file_peek_path file) = Regular contents ->
  (4 <= List.length contents)%nat ->
  fst (load_image host file s) = None /\
  st_error (snd (load_image host file s)) = st_error s /\
  fst (dpx_load host file s)
  = mkValues GIMP_PDB_EXECUTION_ERROR None None.
Proof.
  intros Hfs Hlen. rewrite (load_image_long _ _ _ Hfs Hlen).
  repeat split.
  unfold dpx_load, bind at 1, clear_error.
  unfold bind at 1.
  rewrite (load_image_long file _ contents); [|exact Hfs|exact Hlen].
  reflexivity.
Qed.

(** C8. A file of fewer than 4 bytes makes the read of the magic fail:
    [load_image] stores the G_FILE_ERROR "Failed to read Dpx header", the
    TruncatedHeader of the specification, closes the stream and returns
    NULL. *)
Theorem short_file_fails_with_TruncatedHeader (file : GFile) (s : State)
    (contents : list byte) :
  st_fs s (g_file_peek_path file) = Regular contents ->
  (List.length contents < 4)%nat ->
  st_error s = None ->
  fails_with (load_image host file s) TruncatedHeader /\
  st_error (snd (load_image host file s))
  = Some (mkGError G_FILE_ERROR (g_file_error_from_errno host (st_errno s))
            "Failed to read Dpx header") /\
  st_fp (snd (load_image host file s)) = None /\
  st_images (snd (load_image host file s)) = st_images s.
Proof.
  intros Hfs Hlen Herr. rewrite (load_image_short _ _ _ Hfs Hlen).
  rewrite Herr. cbn. repeat split.
  eexists. split; reflexivity.
Qed.

(** C3, as the code has it.  The 4 magic bytes are read and compared with
    nothing, so no file is turned down for its magic: whatever the first 4
    bytes of a file are, [load_image] answers as it does for the same file
    with any other 4 bytes in their place, the bytes S, D, P, X among
    them.  The pointer returned, [*error], errno, the images GIMP holds,
    the calls made, and the place of the stream with the bytes ahead of it
    are the same. *)
Theorem magic_is_read_and_not_compared (file : GFile) (s : State)
    (contents magic : list byte) :
  st_fs s (g_file_peek_path file) = Regular contents ->
  (4 <= List.length contents)%nat ->
  List.length magic = 4%nat ->
  let r := load_image host file s in
  let r' := load_image host file
              (with_file (g_file_peek_path file)
                 (with_magic magic contents) s) in
  fst r' = fst r /\
  st_error (snd r') = st_error (snd r) /\
  st_errno (snd r') = st_errno (snd r) /\
  st_images (snd r') = st_images (snd r) /\
  st_trace (snd r') = st_trace (snd r) /\
  stream_view (snd r') = stream_view (snd r).
Proof.
  intros Hfs Hlen Hmagic r r'. subst r r'.
  rewrite (load_image_long file s contents) by assumption.
  rewrite (load_image_long file _ (with_magic magic contents)).
  - cbn [fst snd st_error st_errno st_images st_trace with_file].
    repeat split.
    unfold stream_view, with_magic. cbn [st_fp f_pos f_data].
    rewrite (skipn_app 4 magic), skipn_all2 by lia.
    rewrite Hmagic, Nat.sub_diag. reflexivity.
  - cbn [with_file st_fs]. rewrite String.eqb_refl. reflexivity.
  - unfold with_magic. rewrite length_app. lia.
Qed.

End Compiled.

(** * Properties of the text inside the comment

    What [load_image_with_body] would do.  Nothing here is about the
    compiled [load_image]. *)

Lemma byte_val_range (b : byte) : 0 <= byte_val b < 256.
Proof.
  unfold byte_val. pose proof (Byte.to_N_bounded b) as H. lia.
Qed.

Lemma byte_bits_high (a n : Z) :
  0 <= a < 256 -> 8 <= n -> Z.testbit a n = false.
Proof.
  intros Ha Hn.
  rewrite <- (Z.mod_small a (2 ^ 8)) by (change (2 ^ 8) with 256; lia).
  apply Z.mod_pow2_bits_high. lia.
Qed.

Lemma ltb_true (a b : Z) : a < b -> (a <? b) = true.
Proof. intros H. apply Z.ltb_lt. exact H. Qed.

Lemma ltb_false (a b : Z) : b <= a -> (a <? b) = false.
Proof. intros H. apply Z.ltb_ge. exact H. Qed.

Ltac masks :=
  change 0xFFFF with (Z.ones 16);
  change 0x000000ff with (Z.ones 8);
  change 0x0000ff00 with (Z.shiftl (Z.ones 8) 8);
  change 0x00ff0000 with (Z.shiftl (Z.ones 8) 16);
  change 0xff000000 with (Z.shiftl (Z.ones 8) 24).

(** One step of pushing [Z.testbit] through a word built from bytes. *)
Ltac bit_step :=
  match goal with
  | |- context [Z.testbit (Z.lor ?a ?b) ?m] => rewrite (Z.lor_spec a b m)
  | |- context [Z.testbit (Z.land ?a ?b) ?m] => rewrite (Z.land_spec a b m)
  | |- context [Z.testbit ?a ?m] => rewrite (Z.testbit_neg_r a m) by lia
  | |- context [Z.testbit (Z.shiftl ?a ?k) ?m] =>
      rewrite (Z.shiftl_spec a k m) by lia
  | |- context [Z.testbit (Z.shiftr ?a ?k) ?m] =>
      rewrite (Z.shiftr_spec a k m) by lia
  | |- context [Z.testbit (Z.ones ?k) ?m] =>
      rewrite (Z.testbit_ones_nonneg k m) by lia
  | |- context [Z.testbit ?a ?m] =>
      rewrite (byte_bits_high a m) by (assumption || lia)
  | |- context [?x <? ?y] => rewrite (ltb_true x y) by lia
  | |- context [?x <? ?y] => rewrite (ltb_false x y) by lia
  | |- context [Z.testbit ?a ?m] => progress (ring_simplify m)
  end.

(** Bit [n] of a 32 bit word lies in one of its four bytes, or above. *)
Ltac byte_of_bit n :=
  destruct (Z_lt_le_dec n 8);
  [| destruct (Z_lt_le_dec n 16);
     [| destruct (Z_lt_le_dec n 24);
        [| destruct (Z_lt_le_dec n 32) ]]].

Ltac bitwise :=
  masks; apply Z.bits_inj'; intros n Hn; byte_of_bit n; repeat bit_step;
  try btauto.

Ltac no_common_bit :=
  apply Z.bits_inj'; intros n Hn; rewrite Z.bits_0;
  byte_of_bit n; repeat bit_step; try btauto.

Lemma swap16_bytes (a b : Z) :
  0 <= a < 256 -> 0 <= b < 256 ->
  GUINT16_SWAP_LE_BE (Z.lor a (Z.shiftl b 8)) = Z.lor (Z.shiftl a 8) b.
Proof. intros Ha Hb. unfold GUINT16_SWAP_LE_BE. bitwise. Qed.

Lemma swap32_bytes (a b c d : Z) :
  0 <= a < 256 -> 0 <= b < 256 -> 0 <= c < 256 -> 0 <= d < 256 ->
  GUINT32_SWAP_LE_BE
    (Z.lor (Z.lor (Z.lor a (Z.shiftl b 8)) (Z.shiftl c 16)) (Z.shiftl d 24))
  = Z.lor (Z.lor (Z.lor (Z.shiftl a 24) (Z.shiftl b 16)) (Z.shiftl c 8)) d.
Proof. intros Ha Hb Hc Hd. unfold GUINT32_SWAP_LE_BE. bitwise. Qed.

Lemma lor_disjoint (x y : Z) : Z.land x y = 0 -> Z.lor x y = x + y.
Proof.
  intros H. rewrite <- Z.lxor_lor by exact H.
  symmetry. apply Z.add_nocarry_lxor. exact H.
Qed.

Lemma lor_be16 (a b : Z) :
  0 <= a < 256 -> 0 <= b < 256 -> Z.lor (Z.shiftl a 8) b = 256 * a + b.
Proof.
  intros Ha Hb. rewrite lor_disjoint.
  - rewrite Z.shiftl_mul_pow2 by lia. lia.
  - no_common_bit.
Qed.

Lemma lor_be32 (a b c d : Z) :
  0 <= a < 256 -> 0 <= b < 256 -> 0 <= c < 256 -> 0 <= d < 256 ->
  Z.lor (Z.lor (Z.lor (Z.shiftl a 24) (Z.shiftl b 16)) (Z.shiftl c 8)) d
  = 16777216 * a + 65536 * b + 256 * c + d.
Proof.
  intros Ha Hb Hc Hd.
  rewrite (lor_disjoint _ d), (lor_disjoint _ (Z.shiftl c 8)),
    (lor_disjoint (Z.shiftl a 24)).
  - rewrite !Z.shiftl_mul_pow2 by lia. lia.
  - no_common_bit.
  - no_common_bit.
  - no_common_bit.
Qed.

(** The loop reads row [k] at offset [pos + k * size] and writes it to row
    [i + k]: the rows are taken in the order of the file, each once. *)
Lemma row_events_nth (n : nat) :
  forall (i : Z) (pos size k : nat),
    (k < n)%nat ->
    nth_error (row_events n i pos size) (2 * k)
    = Some (Ev_fread (pos + k * size) size 1 1) /\
    nth_error (row_events n i pos size) (2 * k + 1)
    = Some (Ev_buffer_set (i + Z.of_nat k)).
Proof.
  induction n as [|n IH]; intros i pos size k Hk; [lia|].
  destruct k as [|k].
  - cbn. rewrite Nat.add_0_r, Z.add_0_r. split; reflexivity.
  - replace (2 * S k)%nat with (S (S (2 * k))) by lia.
    cbn [row_events Nat.add nth_error].
    destruct (IH (i + 1) (pos + size)%nat size k ltac:(lia)) as [Hr Hw].
    rewrite Hr, Hw. split; do 2 f_equal; lia.
Qed.

Lemma row_events_length (n : nat) :
  forall (i : Z) (pos size : nat),
    List.length (row_events n i pos size) = (2 * n)%nat.
Proof.
  induction n as [|n IH]; intros i pos size; [reflexivity|].
  cbn [row_events List.length]. rewrite IH. lia.
Qed.

Section Body.

Context (host : Host).

(** Whatever the byte order of the host, a 16 bit sample stored high byte
    first is read as [256 * b0 + b1]. *)
Lemma GUINT16_FROM_BE_load (b0 b1 : byte) :
  GUINT16_FROM_BE host (load_u16 host b0 b1) = be16 b0 b1.
Proof.
  pose proof (byte_val_range b0). pose proof (byte_val_range b1).
  unfold GUINT16_FROM_BE, load_u16, be16.
  destruct (G_BYTE_ORDER host).
  - rewrite swap16_bytes by assumption. apply lor_be16; assumption.
  - apply lor_be16; assumption.
Qed.

Lemma GUINT32_FROM_BE_load (bs : list byte) (v : Z) :
  be32 bs = Some v -> GUINT32_FROM_BE host (load_u32 host bs) = v.
Proof.
  destruct bs as [|b0 [|b1 [|b2 [|b3 [|b4 bs]]]]]; try discriminate.
  intros [= <-].
  pose proof (byte_val_range b0). pose proof (byte_val_range b1).
  pose proof (byte_val_range b2). pose proof (byte_val_range b3).
  unfold GUINT32_FROM_BE, load_u32.
  destruct (G_BYTE_ORDER host).
  - rewrite swap32_bytes by assumption. apply lor_be32; assumption.
  - apply lor_be32; assumption.
Qed.


Local Arguments firstn : simpl never.
Local Arguments skipn : simpl never.
Local Arguments Nat.div : simpl never.
Local Arguments Z.mul : simpl never.
Local Arguments Z.to_nat : simpl never.
Local Arguments Nat.mul : simpl never.

Lemma image_size_accepted (width height : Z) :
  1 <= width <= GIMP_MAX_IMAGE_SIZE host ->
  1 <= height <= GIMP_MAX_IMAGE_SIZE host ->
  (1 <=? width) && (width <=? GIMP_MAX_IMAGE_SIZE host)
    && (1 <=? height) && (height <=? GIMP_MAX_IMAGE_SIZE host) = true.
Proof.
  intros Hw Hh.
  rewrite !(proj2 (Z.leb_le _ _)) by lia. reflexivity.
Qed.

Lemma convert_in_place_all (f : Z -> Z) (l : list Z) :
  forall n, (List.length l <= n)%nat -> convert_in_place f n l = map f l.
Proof.
  induction l as [|p l IH]; intros [|n] Hn; cbn in *; try reflexivity.
  - lia.
  - f_equal. apply IH. lia.
Qed.

Lemma as_guint16s_length (load : byte -> byte -> Z) (k : nat) :
  forall bs, List.length bs = (2 * k)%nat ->
  List.length (as_guint16s load bs) = k.
Proof.
  induction k as [|k IH]; intros bs Hlen.
  - destruct bs; [reflexivity|cbn in Hlen; lia].
  - destruct bs as [|b0 [|b1 bs]]; cbn in Hlen; try lia.
    cbn. f_equal. apply IH. lia.
Qed.

Lemma as_guint16s_map (f : Z -> Z) (load : byte -> byte -> Z) (k : nat) :
  forall bs, List.length bs = (2 * k)%nat ->
  map f (as_guint16s load bs) = as_guint16s (fun b0 b1 => f (load b0 b1)) bs.
Proof.
  induction k as [|k IH]; intros bs Hlen.
  - destruct bs; [reflexivity|cbn in Hlen; lia].
  - destruct bs as [|b0 [|b1 bs]]; cbn in Hlen; try lia.
    cbn. f_equal. apply IH. lia.
Qed.

Lemma as_guint16s_ext (f g : byte -> byte -> Z) (k : nat) :
  (forall b0 b1, f b0 b1 = g b0 b1) ->
  forall bs, List.length bs = (2 * k)%nat ->
  as_guint16s f bs = as_guint16s g bs.
Proof.
  intros Hfg. induction k as [|k IH]; intros bs Hlen.
  - destruct bs; [reflexivity|cbn in Hlen; lia].
  - destruct bs as [|b0 [|b1 bs]]; cbn in Hlen; try lia.
    cbn. rewrite Hfg. f_equal. apply IH. lia.
Qed.

(** The row handed to [gegl_buffer_set] after the conversion loop holds the
    samples of the row of the file, read high byte first. *)
Lemma stored_row_is_decode_row (width : Z) (got : list byte) :
  0 <= width -> width * 4 < 2 ^ 32 ->
  List.length got = Z.to_nat (width * 4 * 2) ->
  firstn (Z.to_nat (4 * width))
    (convert_in_place (GUINT16_FROM_BE host)
       (Z.to_nat ((width * 4) mod 2 ^ 32))
       (as_guint16s (load_u16 host) got))
  = decode_row got.
Proof.
  intros Hw Hsmall Hlen.
  assert (Heven : List.length got = (2 * Z.to_nat (4 * width))%nat) by lia.
  rewrite Z.mod_small by lia.
  rewrite convert_in_place_all
    by (rewrite (as_guint16s_length _ _ _ Heven); lia).
  rewrite (as_guint16s_map _ _ _ _ Heven).
  rewrite (as_guint16s_ext _ be16 _ GUINT16_FROM_BE_load _ Heven).
  apply firstn_all2. unfold decode_row.
  rewrite (as_guint16s_length _ _ _ Heven). lia.
Qed.

Lemma fread_complete (size : nat) (s : State) (data : list byte) (pos : nat) :
  st_fp s = Some (mkFILE data pos) ->
  (0 < size)%nat -> (pos + size <= List.length data)%nat ->
  fread size 1 s =
    ((1%nat, firstn size (skipn pos data)),
     mkState (st_fs s) (st_errno s) (Some (mkFILE data (pos + size)))
       (st_error s) (st_images s)
       (st_trace s ++ [Ev_fread pos size 1 1])).
Proof.
  intros Hfp Hsize Hlen. unfold fread. rewrite Hfp. run_monad.
  rewrite Nat.mul_1_r.
  assert (Hgot : List.length (firstn size (skipn pos data)) = size)
    by (rewrite length_firstn, length_skipn; lia).
  rewrite Hgot. rewrite Nat.div_same by lia.
  destruct size as [|size']; [lia|]. reflexivity.
Qed.

Lemma fread_short (size : nat) (s : State) (data : list byte) (pos : nat) :
  st_fp s = Some (mkFILE data pos) ->
  (List.length data < pos + size)%nat ->
  exists got fp,
    fread size 1 s =
      ((0%nat, got),
       mkState (st_fs s) (st_errno s) (Some fp) (st_error s) (st_images s)
         (st_trace s ++ [Ev_fread pos size 1 0])).
Proof.
  intros Hfp Hlen. unfold fread. rewrite Hfp. run_monad.
  rewrite Nat.mul_1_r.
  destruct size as [|size']; [cbn; eauto|].
  assert (Hgot : (List.length (firstn (S size') (skipn pos data)) < S size')%nat)
    by (rewrite length_firstn, length_skipn; lia).
  rewrite (Nat.div_small _ _ Hgot). cbn. eauto.
Qed.


Lemma skipn_skipn_add {A} (a b : nat) (l : list A) :
  skipn a (skipn b l) = skipn (b + a) l.
Proof.
  revert l. induction b as [|b IH]; intros l; [reflexivity|].
  destruct l as [|x l]; [rewrite !skipn_nil; reflexivity|].
  cbn [Nat.add]. rewrite !skipn_cons. apply IH.
Qed.

(** The loop over complete rows: [n] rounds read [n] rows from the stream,
    one after the other, and write them to rows [i], [i + 1], ... *)
Lemma scanlines_complete (id : nat) (width row_size : Z) (data : list byte) :
  0 < width -> width * 4 < 2 ^ 32 -> row_size = width * 4 * 2 ->
  forall n i pos s,
    st_fp s = Some (mkFILE data pos) ->
    (pos + n * Z.to_nat row_size <= List.length data)%nat ->
    scanlines host n i (Some id) width row_size s =
      (true,
       mkState (st_fs s) (st_errno s)
         (Some (mkFILE data (pos + n * Z.to_nat row_size)))
         (st_error s)
         (write_rows id i
            (map decode_row (chunks n (Z.to_nat row_size) (skipn pos data)))
            (st_images s))
         (st_trace s ++ row_events n i pos (Z.to_nat row_size))).
Proof.
  intros Hw Hsmall Hrs.
  assert (Hpos : (0 < Z.to_nat row_size)%nat) by lia.
  induction n as [|n IH]; intros i pos s Hfp Hlen.
  - cbn [scanlines chunks map write_rows row_events]. unfold ret.
    rewrite Nat.mul_0_l, Nat.add_0_r, app_nil_r, <- Hfp.
    destruct s; reflexivity.
  - cbn [scanlines]. unfold bind at 1.
    rewrite (fread_complete _ _ _ _ Hfp Hpos) by lia.
    cbn [Nat.eqb]. unfold gegl_buffer_set, update_image, emit.
    unfold bind at 1. unfold bind at 1. cbn [st_fs st_errno st_fp st_error
      st_images st_trace].
    rewrite IH with (pos := (pos + Z.to_nat row_size)%nat)
      by (cbn [st_fp]; (reflexivity || lia)).
    cbn [st_fs st_errno st_fp st_error st_images st_trace].
    rewrite stored_row_is_decode_row;
      [|lia|exact Hsmall
       |rewrite length_firstn, length_skipn; lia].
    cbn [chunks map write_rows row_events].
    rewrite skipn_skipn_add.
    f_equal. f_equal.
    + f_equal. f_equal. lia.
    + rewrite <- !app_assoc. reflexivity.
Qed.


Lemma update_nth_length {A} (f : A -> A) (l : list A) :
  forall n, List.length (update_nth n f l) = List.length l.
Proof. induction l as [|x l IH]; intros [|n]; cbn; congruence. Qed.

Lemma update_nth_middle {A} (f : A -> A) (l0 : list A) (x : A) (l1 : list A) :
  update_nth (List.length l0) f (l0 ++ x :: l1) = l0 ++ f x :: l1.
Proof. induction l0 as [|y l0 IH]; cbn; congruence. Qed.

(** The loop when the pixel data ends early: after the [k] rows that are
    complete, read and written in the order of the file, the short read
    leaves the loop through its [return NULL], with the error set and the
    stream still open; no later row is touched. *)
Lemma scanlines_premature (id : nat) (width row_size : Z) (data : list byte) :
  0 < width -> width * 4 < 2 ^ 32 -> row_size = width * 4 * 2 ->
  forall n i pos s,
    st_fp s = Some (mkFILE data pos) ->
    st_error s = None ->
    (pos <= List.length data < pos + n * Z.to_nat row_size)%nat ->
    exists s' k,
      scanlines host n i (Some id) width row_size s = (false, s') /\
      st_error s'
      = Some (mkGError G_FILE_ERROR (g_file_error_from_errno host (st_errno s))
                "Premature end of Dpx pixel data") /\
      st_fp s' <> None /\
      List.length (st_images s') = List.length (st_images s) /\
      (k < n)%nat /\
      st_trace s' =
        st_trace s ++ row_events k i pos (Z.to_nat row_size)
          ++ [Ev_fread (pos + k * Z.to_nat row_size) (Z.to_nat row_size) 1 0].
Proof.
  intros Hw Hsmall Hrs.
  assert (Hpos : (0 < Z.to_nat row_size)%nat) by lia.
  induction n as [|n IH]; intros i pos s Hfp Herr Hlen; [lia|].
  cbn [scanlines]. unfold bind at 1.
  destruct (le_lt_dec (pos + Z.to_nat row_size) (List.length data))
    as [Hrow|Hrow].
  - rewrite (fread_complete _ _ _ _ Hfp Hpos Hrow).
    cbn [Nat.eqb]. unfold gegl_buffer_set, update_image, emit.
    unfold bind at 1. unfold bind at 1. cbn [st_fs st_errno st_fp st_error
      st_images st_trace].
    match goal with
    | |- context [scanlines host n ?i' _ _ _ ?s1] =>
        destruct (IH i' (pos + Z.to_nat row_size)%nat s1)
          as (s' & k & Hrun & He & Hopen & Himgs & Hk & Htrace);
        [reflexivity|exact Herr|cbn in Hlen; lia|]
    end.
    exists s', (S k). rewrite Hrun. repeat split; try assumption.
    + rewrite Himgs. cbn [st_images]. apply update_nth_length.
    + lia.
    + rewrite Htrace. cbn [st_trace row_events]. rewrite <- !app_assoc.
      cbn [app].
      replace (pos + S k * Z.to_nat row_size)%nat
        with (pos + Z.to_nat row_size + k * Z.to_nat row_size)%nat by lia.
      reflexivity.
  - destruct (fread_short _ _ _ _ Hfp Hrow) as (got & fp & Hread).
    rewrite Hread. cbn [Nat.eqb]. run_monad. rewrite Herr.
    eexists. exists 0%nat. split; [reflexivity|]. cbn.
    repeat split; try lia; try discriminate.
    rewrite Nat.add_0_r. reflexivity.
Qed.

(** Writing as many rows as a buffer still has to take fills the buffer. *)
Lemma write_rows_fills (images : list GimpImage) (w h : Z)
    (t : GimpImageBaseType) (p : GimpPrecision) (name : string) (lw lh : Z)
    (lt : GimpImageType) (opacity : Z) :
  forall rows i done todo,
    0 <= i -> List.length done = Z.to_nat i ->
    List.length todo = List.length rows ->
    write_rows (List.length images) i rows
      (images ++ [mkImage w h t p
                    [mkLayer name lw lh lt opacity (done ++ todo)]])
    = images ++ [mkImage w h t p
                   [mkLayer name lw lh lt opacity (done ++ rows)]].
Proof.
  induction rows as [|r rows IH]; intros i done todo Hi Hdone Htodo.
  - destruct todo; [reflexivity|discriminate].
  - destruct todo as [|x todo]; [discriminate|].
    cbn [write_rows]. rewrite update_nth_middle.
    unfold set_buffer_row. cbn [i_width i_height i_base_type i_precision
      i_layers update_nth l_name l_width l_height l_type l_opacity l_buffer].
    rewrite <- Hdone, update_nth_middle.
    replace (done ++ r :: todo) with ((done ++ [r]) ++ todo)
      by (rewrite <- app_assoc; reflexivity).
    rewrite IH; [|lia|rewrite length_app; cbn; lia|cbn in Htodo; lia].
    rewrite <- app_assoc. reflexivity.
Qed.


Lemma bind_run {A B} (m : M A) (k : A -> M B) (s s' : State) (a : A) :
  m s = (a, s') -> bind m k s = k a s'.
Proof. intros H. unfold bind. rewrite H. reflexivity. Qed.

Lemma fseek_run (s : State) (fp : FILE) (offset : Z) :
  st_fp s = Some fp -> 0 <= offset ->
  fseek offset s =
    (0, mkState (st_fs s) (st_errno s)
          (Some (mkFILE (f_data fp) (Z.to_nat offset)))
          (st_error s) (st_images s)
          (st_trace s ++ [Ev_fseek offset 0])).
Proof.
  intros Hfp Hoff. unfold fseek. rewrite Hfp.
  rewrite (ltb_false offset 0 Hoff). reflexivity.
Qed.

(** The seek and the two reads, on a file that reaches offset 780. *)
Lemma read_dimensions_run (s : State) (contents : list byte) (pos : nat)
    (w h : Z) :
  st_fp s = Some (mkFILE contents pos) ->
  (780 <= List.length contents)%nat ->
  header_width contents = Some w ->
  header_height contents = Some h ->
  read_dimensions host s =
    (Some (w, h),
     mkState (st_fs s) (st_errno s) (Some (mkFILE contents 780))
       (st_error s) (st_images s)
       (st_trace s ++ [Ev_fseek 772 0; Ev_fread 772 4 1 1;
                       Ev_fread 776 4 1 1])).
Proof.
  intros Hfp Hlen Hw Hh. unfold read_dimensions.
  rewrite (bind_run _ _ _ _ _ (fseek_run s _ 772 Hfp ltac:(lia))).
  change (negb (0 =? 0)) with false. cbv iota.
  change (Z.to_nat 772) with 772%nat. cbn [f_data].
  erewrite bind_run
    by (apply (fread_complete 4 _ contents 772);
        cbn [st_fp]; (reflexivity || lia)).
  cbn [st_fs st_errno st_fp st_error st_images st_trace Nat.eqb].
  erewrite bind_run
    by (apply (fread_complete 4 _ contents (772 + 4));
        cbn [st_fp]; (reflexivity || lia)).
  cbn [st_fs st_errno st_fp st_error st_images st_trace Nat.eqb orb].
  unfold ret.
  rewrite (GUINT32_FROM_BE_load _ _ Hw).
  change (772 + 4)%nat with 776%nat.
  rewrite (GUINT32_FROM_BE_load _ _ Hh).
  change (776 + 4)%nat with 780%nat.
  rewrite <- !app_assoc. reflexivity.
Qed.

Lemma update_nth_last {A} (f : A -> A) (l : list A) (x : A) :
  update_nth (List.length l) f (l ++ [x]) = l ++ [f x].
Proof. apply update_nth_middle. Qed.

Lemma write_rows_all (images : list GimpImage) (w h : Z)
    (t : GimpImageBaseType) (p : GimpPrecision) (name : string) (lw lh : Z)
    (lt : GimpImageType) (opacity : Z) (rows todo : list Row) :
  List.length todo = List.length rows ->
  write_rows (List.length images) 0 rows
    (images ++ [mkImage w h t p [mkLayer name lw lh lt opacity todo]])
  = images ++ [mkImage w h t p [mkLayer name lw lh lt opacity rows]].
Proof.
  intros Hlen.
  apply (write_rows_fills images w h t p name lw lh lt opacity rows 0 []
           todo); [lia|reflexivity|exact Hlen].
Qed.

Lemma chunks_length (n size : nat) :
  forall bs, List.length (chunks n size bs) = n.
Proof. induction n as [|n IH]; intros bs; cbn; congruence. Qed.

(** Dimensions beyond the limits end the decode before anything is
    allocated. *)
Lemma decode_pixels_too_large (s : State) (width height : Z) :
  st_error s = None ->
  width > GIMP_MAX_IMAGE_SIZE host \/ height > GIMP_MAX_IMAGE_SIZE host
    \/ width * 8 > G_MAXSIZE host ->
  decode_pixels host width height s =
    (None,
     mkState (st_fs s) (st_errno s) None
       (Some (mkGError GIMP_PLUG_IN_ERROR 0
                ("Image dimensions too large: width " ++ printf_d width
                   ++ " x height " ++ printf_d height)%string))
       (st_images s) (st_trace s ++ [Ev_fclose])).
Proof.
  intros Herr Hbig. unfold decode_pixels.
  assert (Hcheck :
    (if (width >? GIMP_MAX_IMAGE_SIZE host)
        || (height >? GIMP_MAX_IMAGE_SIZE host)
     then None else g_size_checked_mul host width (2 * 4)) = None).
  { unfold g_size_checked_mul.
    destruct (Z.gtb_spec width (GIMP_MAX_IMAGE_SIZE host)); [reflexivity|].
    destruct (Z.gtb_spec height (GIMP_MAX_IMAGE_SIZE host)); [reflexivity|].
    cbn [orb].
    destruct (Z.leb_spec (width * (2 * 4)) (G_MAXSIZE host));
      [lia|reflexivity]. }
  rewrite Hcheck. run_monad. rewrite Herr. reflexivity.
Qed.

(** Dimensions within the limits and enough pixel data: the image is
    created and every row of the file ends up in its buffer. *)
Lemma decode_pixels_complete (s : State) (contents : list byte)
    (width height : Z) :
  st_fp s = Some (mkFILE contents 780) ->
  1 <= width <= GIMP_MAX_IMAGE_SIZE host ->
  1 <= height <= GIMP_MAX_IMAGE_SIZE host ->
  width * 4 < 2 ^ 32 ->
  width * 8 <= G_MAXSIZE host ->
  heap_grants host (width * 8) = true ->
  (780 + Z.to_nat height * Z.to_nat (width * 8) <= List.length contents)%nat ->
  decode_pixels host width height s =
    (Some (List.length (st_images s)),
     mkState (st_fs s) (st_errno s) None (st_error s)
       (st_images s ++
          [mkImage width height GIMP_RGB GIMP_PRECISION_U16_NON_LINEAR
             [mkLayer "Background" width height GIMP_RGBA_IMAGE 100
                (file_rows width height contents)]])
       (st_trace s ++
          [Ev_image_new width height; Ev_malloc (width * 8) true]
          ++ row_events (Z.to_nat height) 0 780 (Z.to_nat (width * 8))
          ++ [Ev_free; Ev_fclose])).
Proof.
  intros Hfp Hw Hh Hsmall Hsize Hheap Hlen. unfold decode_pixels.
  assert (Hcheck :
    (if (width >? GIMP_MAX_IMAGE_SIZE host)
        || (height >? GIMP_MAX_IMAGE_SIZE host)
     then None else g_size_checked_mul host width (2 * 4))
    = Some (width * 8)).
  { unfold g_size_checked_mul.
    destruct (Z.gtb_spec width (GIMP_MAX_IMAGE_SIZE host)); [lia|].
    destruct (Z.gtb_spec height (GIMP_MAX_IMAGE_SIZE host)); [lia|].
    cbn [orb]. replace (width * (2 * 4)) with (width * 8) by lia.
    destruct (Z.leb_spec (width * 8) (G_MAXSIZE host)); [reflexivity|lia]. }
  rewrite Hcheck.
  unfold bind at 1, gimp_image_new_with_precision.
  rewrite image_size_accepted by assumption.
  unfold bind at 1, gimp_image_insert_layer, update_image.
  cbn [st_fs st_errno st_fp st_error st_images st_trace].
  rewrite update_nth_last.
  cbn [i_width i_height i_base_type i_precision i_layers].
  unfold bind at 1, g_try_malloc. unfold bind at 1, emit. unfold ret at 1.
  cbn [st_fs st_errno st_fp st_error st_images st_trace].
  rewrite Hheap.
  replace (width * 8 =? 0) with false by (symmetry; apply Z.eqb_neq; lia).
  cbn [negb andb]. unfold bind at 1.
  rewrite (scanlines_complete _ width (width * 8) contents)
    with (pos := 780%nat);
    [|lia|exact Hsmall|lia|cbn [st_fp]; exact Hfp|exact Hlen].
  cbn [negb st_fs st_errno st_fp st_error st_images st_trace].
  unfold g_free, fclose. run_monad.
  unfold gimp_layer_new.
  rewrite write_rows_all
    by (rewrite length_map, repeat_length, chunks_length; reflexivity).
  unfold file_rows, pixel_data.
  replace (width * 4 * 2) with (width * 8) by lia.
  rewrite <- !app_assoc. reflexivity.
Qed.


Lemma g_fopen_regular (s : State) (path : string) (contents : list byte) :
  st_fs s path = Regular contents ->
  g_fopen path s =
    (true,
     mkState (st_fs s) (st_errno s) (Some (mkFILE contents 0)) (st_error s)
       (st_images s) (st_trace s ++ [Ev_fopen path true])).
Proof. intros Hfs. unfold g_fopen. rewrite Hfs. reflexivity. Qed.

(** With the magic read behind it, the function goes on into the text of
    the comment, the stream at offset 4. *)
Lemma load_image_with_body_enters (file : GFile) (s : State)
    (contents : list byte) :
  st_fs s (g_file_peek_path file) = Regular contents ->
  (4 <= List.length contents)%nat ->
  load_image_with_body host file s =
    commented_out_body host
      (mkState (st_fs s) (st_errno s) (Some (mkFILE contents 4)) (st_error s)
         (st_images s)
         (st_trace s ++ [Ev_fopen (g_file_peek_path file) true;
                         Ev_fread 0 4 1 1])).
Proof.
  intros Hfs Hlen. unfold load_image_with_body.
  rewrite (bind_run _ _ _ _ _ (g_fopen_regular _ _ _ Hfs)).
  cbn [negb].
  erewrite bind_run
    by (apply (fread_complete 4 _ contents 0);
        cbn [st_fp]; (reflexivity || lia)).
  cbn [st_fs st_errno st_fp st_error st_images st_trace Nat.eqb Nat.add].
  rewrite <- !app_assoc. reflexivity.
Qed.

Lemma rows_fit (w h : Z) (contents : list byte) :
  0 < w ->
  (1 <= Z.to_nat h <= complete_rows w contents)%nat ->
  (780 + Z.to_nat h * Z.to_nat (w * 8) <= List.length contents)%nat.
Proof.
  intros Hw Hrows. unfold complete_rows, pixel_data in Hrows.
  rewrite length_skipn in Hrows.
  replace (w * 4 * 2) with (w * 8) in Hrows by lia.
  assert (Hrs : Z.to_nat (w * 8) <> 0%nat) by lia.
  pose proof (Nat.Div0.mul_div_le (List.length contents - 780)
                (Z.to_nat (w * 8))) as Hdiv.
  nia.
Qed.

Lemma rows_missing (w h : Z) (contents : list byte) :
  0 < w -> (780 <= List.length contents)%nat ->
  (complete_rows w contents < Z.to_nat h)%nat ->
  (780 <= List.length contents < 780 + Z.to_nat h * Z.to_nat (w * 8))%nat.
Proof.
  intros Hw Hlen Hrows. unfold complete_rows, pixel_data in Hrows.
  rewrite length_skipn in Hrows.
  replace (w * 4 * 2) with (w * 8) in Hrows by lia.
  assert (Hrs : Z.to_nat (w * 8) <> 0%nat) by lia.
  split; [exact Hlen|].
  pose proof (Nat.div_mod_eq (List.length contents - 780) (Z.to_nat (w * 8)))
    as Hdm.
  pose proof (Nat.mod_upper_bound (List.length contents - 780) _ Hrs) as Hm.
  nia.
Qed.

(** What the text of the comment does with a valid file: the function
    returns an image of [w] x [h] pixels whose buffer holds the rows of
    the file, having read the rows in the order of the file, each once. *)
Theorem load_image_with_body_decodes (file : GFile) (s : State)
    (contents : list byte) (w h : Z) :
  st_fs s (g_file_peek_path file) = Regular contents ->
  header_width contents = Some w ->
  header_height contents = Some h ->
  1 <= w <= GIMP_MAX_IMAGE_SIZE host ->
  1 <= h <= GIMP_MAX_IMAGE_SIZE host ->
  w * 4 < 2 ^ 32 -> w * 8 <= G_MAXSIZE host ->
  heap_grants host (w * 8) = true ->
  (Z.to_nat h <= complete_rows w contents)%nat ->
  let r := load_image_with_body host file s in
  yields_raster r w h (file_rows w h contents) /\
  st_error (snd r) = st_error s /\
  st_fp (snd r) = None /\
  st_trace (snd r) =
    st_trace s ++
      [Ev_fopen (g_file_peek_path file) true; Ev_fread 0 4 1 1;
       Ev_fseek 772 0; Ev_fread 772 4 1 1; Ev_fread 776 4 1 1;
       Ev_image_new w h; Ev_malloc (w * 8) true]
      ++ row_events (Z.to_nat h) 0 780 (Z.to_nat (w * 8))
      ++ [Ev_free; Ev_fclose].
Proof.
  intros Hfs Hw Hh Hwr Hhr Hsmall Hsize Hheap Hrows r. subst r.
  assert (Hfit := rows_fit w h contents ltac:(lia) ltac:(lia)).
  rewrite (load_image_with_body_enters _ _ _ Hfs) by lia.
  unfold commented_out_body.
  erewrite bind_run
    by (apply (read_dimensions_run _ contents 4 w h);
        cbn [st_fp]; (reflexivity || assumption || lia)).
  cbv iota beta.
  rewrite (decode_pixels_complete _ contents)
    by (cbn [st_fp]; (reflexivity || assumption)).
  cbn [fst snd st_fs st_errno st_fp st_error st_images st_trace].
  split.
  { exists (List.length (st_images s)). do 2 eexists.
    cbn [fst snd st_images].
    split; [reflexivity|]. split.
    - rewrite nth_error_app2 by lia. rewrite Nat.sub_diag. reflexivity.
    - cbn. repeat split. }
  repeat split. rewrite <- !app_assoc. reflexivity.
Qed.

(** What the text of the comment does when the pixel data ends early:
    NULL, with the error "Premature end of Dpx pixel data". *)
Theorem load_image_with_body_premature (file : GFile) (s : State)
    (contents : list byte) (w h : Z) :
  st_fs s (g_file_peek_path file) = Regular contents ->
  st_error s = None ->
  (780 <= List.length contents)%nat ->
  header_width contents = Some w ->
  header_height contents = Some h ->
  1 <= w <= GIMP_MAX_IMAGE_SIZE host ->
  1 <= h <= GIMP_MAX_IMAGE_SIZE host ->
  w * 4 < 2 ^ 32 -> w * 8 <= G_MAXSIZE host ->
  heap_grants host (w * 8) = true ->
  (complete_rows w contents < Z.to_nat h)%nat ->
  fails_with (load_image_with_body host file s) PrematureEOF.
Proof.
  intros Hfs Herr Hlen Hw Hh Hwr Hhr Hsmall Hsize Hheap Hrows.
  assert (Hmiss := rows_missing w h contents ltac:(lia) Hlen Hrows).
  rewrite (load_image_with_body_enters _ _ _ Hfs) by lia.
  unfold commented_out_body.
  erewrite bind_run
    by (apply (read_dimensions_run _ contents 4 w h);
        cbn [st_fp]; (reflexivity || assumption || lia)).
  cbv iota beta. unfold decode_pixels.
  assert (Hcheck :
    (if (w >? GIMP_MAX_IMAGE_SIZE host) || (h >? GIMP_MAX_IMAGE_SIZE host)
     then None else g_size_checked_mul host w (2 * 4))
    = Some (w * 8)).
  { unfold g_size_checked_mul.
    destruct (Z.gtb_spec w (GIMP_MAX_IMAGE_SIZE host)); [lia|].
    destruct (Z.gtb_spec h (GIMP_MAX_IMAGE_SIZE host)); [lia|].
    cbn [orb]. replace (w * (2 * 4)) with (w * 8) by lia.
    destruct (Z.leb_spec (w * 8) (G_MAXSIZE host)); [reflexivity|lia]. }
  rewrite Hcheck.
  unfold bind at 1, gimp_image_new_with_precision.
  rewrite image_size_accepted by assumption.
  unfold bind at 1, gimp_image_insert_layer, update_image.
  cbn [st_fs st_errno st_fp st_error st_images st_trace].
  unfold bind at 1, g_try_malloc. unfold bind at 1, emit. unfold ret at 1.
  cbn [st_fs st_errno st_fp st_error st_images st_trace].
  rewrite Hheap.
  replace (w * 8 =? 0) with false by (symmetry; apply Z.eqb_neq; lia).
  cbn [negb andb].
  match goal with
  | |- context [bind (scanlines host ?n ?i (Some ?id) _ _) _ ?s1] =>
      destruct (scanlines_premature id w (w * 8) contents ltac:(lia) Hsmall
                  ltac:(lia) n i 780%nat s1)
        as (s' & k & Hrun & He & _);
      [reflexivity|exact Herr|exact Hmiss|]
  end.
  rewrite (bind_run _ _ _ _ _ Hrun). cbn [negb]. unfold ret.
  split; [reflexivity|]. cbn [snd]. rewrite He.
  eexists. split; reflexivity.
Qed.

(** What the text of the comment does with dimensions beyond the limits:
    NULL, with the error "Image dimensions too large", the stream closed
    and nothing allocated. *)
Theorem load_image_with_body_too_large (file : GFile) (s : State)
    (contents : list byte) (w h : Z) :
  st_fs s (g_file_peek_path file) = Regular contents ->
  st_error s = None ->
  (780 <= List.length contents)%nat ->
  header_width contents = Some w ->
  header_height contents = Some h ->
  w > GIMP_MAX_IMAGE_SIZE host \/ h > GIMP_MAX_IMAGE_SIZE host
    \/ w * 8 > G_MAXSIZE host ->
  let r := load_image_with_body host file s in
  fails_with r DimensionsTooLarge /\
  st_fp (snd r) = None /\
  st_images (snd r) = st_images s /\
  filter is_malloc (st_trace (snd r)) = filter is_malloc (st_trace s).
Proof.
  intros Hfs Herr Hlen Hw Hh Hbig r. subst r.
  rewrite (load_image_with_body_enters _ _ _ Hfs) by lia.
  unfold commented_out_body.
  erewrite bind_run
    by (apply (read_dimensions_run _ contents 4 w h);
        cbn [st_fp]; (reflexivity || assumption || lia)).
  cbv iota beta.
  rewrite decode_pixels_too_large by (cbn [st_error]; assumption).
  cbn [fst snd st_fs st_errno st_fp st_error st_images st_trace].
  split; [|repeat split].
  - split; [reflexivity|]. eexists. split; reflexivity.
  - rewrite !filter_app. cbn. rewrite !app_nil_r. reflexivity.
Qed.


(** ** The round trip through the encoder of the specification *)

Lemma byte_val_of_Z (z : Z) : byte_val (byte_of_Z z) = z mod 256.
Proof.
  unfold byte_val, byte_of_Z.
  assert (Hz : 0 <= z mod 256 < 256) by (apply Z.mod_pos_bound; lia).
  destruct (Byte.of_N (Z.to_N (z mod 256))) as [b|] eqn:Hb.
  - apply Byte.to_of_N in Hb. rewrite Hb. lia.
  - apply Byte.of_N_None_iff in Hb. lia.
Qed.

Lemma be16_of_bytes (v : Z) :
  0 <= v < 65536 ->
  be16 (byte_of_Z (Z.shiftr v 8)) (byte_of_Z v) = v.
Proof.
  intros Hv. unfold be16. rewrite !byte_val_of_Z.
  rewrite Z.shiftr_div_pow2 by lia. change (2 ^ 8) with 256.
  Z.div_mod_to_equations. lia.
Qed.

Lemma be32_of_bytes (v : Z) :
  0 <= v < 2 ^ 32 -> be32 (be32_bytes v) = Some v.
Proof.
  intros Hv. unfold be32, be32_bytes. rewrite !byte_val_of_Z.
  rewrite !Z.shiftr_div_pow2 by lia.
  change (2 ^ 8) with 256. change (2 ^ 16) with 65536.
  change (2 ^ 24) with 16777216. change (2 ^ 32) with 4294967296 in Hv.
  f_equal. Z.div_mod_to_equations. lia.
Qed.

Lemma decode_encode_row (r : Row) :
  Forall (fun v => 0 <= v < 65536) r -> decode_row (encode_row r) = r.
Proof.
  unfold decode_row, encode_row.
  induction 1 as [|v r Hv _ IH]; [reflexivity|].
  cbn [flat_map be16_bytes app as_guint16s].
  rewrite be16_of_bytes by exact Hv. f_equal. exact IH.
Qed.

Lemma encode_row_length (r : Row) :
  List.length (encode_row r) = (2 * List.length r)%nat.
Proof.
  unfold encode_row. induction r as [|v r IH]; [reflexivity|].
  cbn [flat_map be16_bytes app List.length]. rewrite IH. lia.
Qed.

Lemma skipn_exact {A} (n : nat) (l0 l1 : list A) :
  List.length l0 = n -> skipn n (l0 ++ l1) = l1.
Proof.
  intros <-. rewrite skipn_app, skipn_all, Nat.sub_diag. reflexivity.
Qed.

Lemma firstn_exact {A} (n : nat) (l0 l1 : list A) :
  List.length l0 = n -> firstn n (l0 ++ l1) = l0.
Proof.
  intros <-. rewrite firstn_app, firstn_all, Nat.sub_diag, firstn_0.
  apply app_nil_r.
Qed.

Lemma chunks_of_rows (w : Z) (rows : list Row) :
  Forall (fun r => List.length r = Z.to_nat (4 * w) /\
                   Forall (fun v => 0 <= v < 65536) r) rows ->
  map decode_row
    (chunks (List.length rows) (Z.to_nat (w * 4 * 2))
       (flat_map encode_row rows))
  = rows.
Proof.
  induction 1 as [|r rows [Hlen Hr] _ IH]; [reflexivity|].
  cbn [List.length chunks flat_map map].
  assert (Hsize : List.length (encode_row r) = Z.to_nat (w * 4 * 2))
    by (rewrite encode_row_length; lia).
  rewrite (firstn_exact _ _ _ Hsize), (skipn_exact _ _ _ Hsize).
  rewrite decode_encode_row by exact Hr. f_equal. exact IH.
Qed.

Lemma flat_map_encode_length (w : Z) (rows : list Row) :
  Forall (fun r => List.length r = Z.to_nat (4 * w) /\
                   Forall (fun v => 0 <= v < 65536) r) rows ->
  List.length (flat_map encode_row rows)
  = (List.length rows * Z.to_nat (w * 4 * 2))%nat.
Proof.
  induction 1 as [|r rows [Hlen Hr] _ IH]; [reflexivity|].
  cbn [flat_map List.length]. rewrite length_app, encode_row_length, IH.
  lia.
Qed.

Lemma encode_dpx_layout (w h : Z) (rows : list Row) :
  0 <= w < 2 ^ 32 -> 0 <= h < 2 ^ 32 ->
  firstn 4 (encode_dpx w h rows) = magic_SDPX /\
  header_width (encode_dpx w h rows) = Some w /\
  header_height (encode_dpx w h rows) = Some h /\
  pixel_data (encode_dpx w h rows) = flat_map encode_row rows.
Proof.
  intros Hw Hh. unfold header_width, header_height, pixel_data, encode_dpx.
  split; [reflexivity|]. split; [|split].
  - rewrite (app_assoc magic_SDPX), (skipn_exact 772) by reflexivity.
    rewrite (firstn_exact 4) by reflexivity. apply be32_of_bytes, Hw.
  - rewrite (app_assoc magic_SDPX), (app_assoc (_ ++ _) (be32_bytes w)).
    rewrite (skipn_exact 776) by reflexivity.
    rewrite (firstn_exact 4) by reflexivity. apply be32_of_bytes, Hh.
  - rewrite (app_assoc magic_SDPX), (app_assoc (_ ++ _) (be32_bytes w)),
      (app_assoc (_ ++ _) (be32_bytes h)).
    apply skipn_exact. reflexivity.
Qed.

(** With the text of the comment in force the byte-order round trip of the
    specification holds: a raster encoded in big-endian rows under an
    "SDPX" header is decoded to the same raster, on hosts of either byte
    order. *)
Theorem load_image_with_body_round_trip (file : GFile) (s : State)
    (w h : Z) (rows : list Row) :
  raster_wf w h rows ->
  st_fs s (g_file_peek_path file) = Regular (encode_dpx w h rows) ->
  1 <= w <= GIMP_MAX_IMAGE_SIZE host ->
  1 <= h <= GIMP_MAX_IMAGE_SIZE host ->
  w * 4 < 2 ^ 32 -> h < 2 ^ 32 -> w * 8 <= G_MAXSIZE host ->
  heap_grants host (w * 8) = true ->
  yields_raster (load_image_with_body host file s) w h rows.
Proof.
  intros [Hcount Hrows] Hfs Hw Hh Hsmall Hhsmall Hsize Hheap.
  destruct (encode_dpx_layout w h rows ltac:(lia) ltac:(lia))
    as (_ & Hwidth & Hheight & Hdata).
  assert (Hcomplete : complete_rows w (encode_dpx w h rows) = Z.to_nat h).
  { unfold complete_rows. rewrite Hdata, (flat_map_encode_length w) by assumption.
    rewrite Hcount. apply Nat.div_mul. lia. }
  destruct (load_image_with_body_decodes file s _ w h Hfs Hwidth Hheight
              Hw Hh Hsmall Hsize Hheap ltac:(lia)) as [Hr _].
  replace (file_rows w h (encode_dpx w h rows)) with rows in Hr; [exact Hr|].
  unfold file_rows. rewrite Hdata, <- Hcount.
  symmetry. apply chunks_of_rows. exact Hrows.
Qed.

End Body.

Lemma round_trip_one_pixel :
  yields_raster (run_with_body linux_amd64 (encode_dpx 1 1 one_pixel))
    1 1 one_pixel.
Proof.
  apply (load_image_with_body_round_trip linux_amd64 a_file
           (entry (disk (encode_dpx 1 1 one_pixel)) 0 []) 1 1 one_pixel);
    try reflexivity; try (cbn; lia).
  split; [reflexivity|]. repeat constructor; cbn; lia.
Qed.

(** The text of the comment on the scenarios of the specification, on a
    little-endian host. *)
Lemma body_decodes_scenario1 :
  yields_raster (run_with_body linux_amd64 scenario1) 2 1
    [[256; 512; 768; 65535; 1024; 1280; 1536; 65535]].
Proof.
  exists 0%nat. do 2 eexists. vm_compute. repeat split.
Qed.

Lemma body_reports_scenario2 :
  fails_with (run_with_body linux_amd64 scenario2) PrematureEOF.
Proof.
  apply (load_image_with_body_premature linux_amd64 a_file
           (entry (disk scenario2) 0 []) scenario2 2 1);
    try reflexivity; try (vm_compute; lia); cbn; lia.
Qed.

Lemma body_rejects_huge_width :
  fails_with (run_with_body linux_amd64 huge_width) DimensionsTooLarge /\
  filter is_malloc (st_trace (snd (run_with_body linux_amd64 huge_width)))
  = [].
Proof.
  destruct (load_image_with_body_too_large linux_amd64 a_file
              (entry (disk huge_width) 0 []) huge_width 0xFFFFFFFF 1)
    as (Hfail & _ & _ & Hmalloc);
    try reflexivity; try (vm_compute; lia).
  - left. cbn. lia.
  - split; [exact Hfail|exact Hmalloc].
Qed.

(** The text of the comment compares the magic with nothing either: the
    little-endian signature is decoded like the big-endian one. *)
Lemma body_accepts_xpds :
  yields_raster (run_with_body linux_amd64 scenario3) 2 1
    [[256; 512; 768; 65535; 1024; 1280; 1536; 65535]].
Proof.
  exists 0%nat. do 2 eexists. vm_compute. repeat split.
Qed.

(** Nor does it test for a zero dimension: a width of 0 gets as far as
    [g_try_malloc (0)], whose NULL is reported as a lack of memory, and a
    height of 0 passes the check without any error; GIMP makes no image
    for it, the loop has no round to go and NULL comes back with [*error]
    still NULL. *)
Lemma body_zero_width :
  fails_with
    (run_with_body linux_amd64
       (magic_SDPX ++ repeat x00 768 ++ be32_bytes 0 ++ be32_bytes 1))
    OutOfMemory.
Proof. split; [reflexivity|]. eexists. split; vm_compute; reflexivity. Qed.

Lemma body_zero_height :
  fst (run_with_body linux_amd64
         (magic_SDPX ++ repeat x00 768 ++ be32_bytes 2 ++ be32_bytes 0))
  = None /\
  st_error
    (snd (run_with_body linux_amd64
            (magic_SDPX ++ repeat x00 768 ++ be32_bytes 2 ++ be32_bytes 0)))
  = None.
Proof. split; vm_compute; reflexivity. Qed.

(** * The magic in the text of the comment

    The text of the comment never looks at the magic either: every step of
    it gives the same result, and leaves the same state, whatever the
    first 4 bytes behind the stream are. *)

Lemma ignores_magic_ret {A} (a : A) : ignores_magic (ret a).
Proof. intros s1 s2 H. split; [reflexivity|exact H]. Qed.

Lemma ignores_magic_bind {A B} (m : M A) (k : A -> M B) :
  ignores_magic m -> (forall a, ignores_magic (k a)) ->
  ignores_magic (bind m k).
Proof.
  intros Hm Hk s1 s2 H. unfold bind.
  destruct (Hm s1 s2 H) as [Ha Hs].
  destruct (m s1) as [a1 s1'], (m s2) as [a2 s2']. cbn in Ha, Hs. subst a2.
  apply Hk. exact Hs.
Qed.

Ltac related_states :=
  let s1 := fresh "s1" in
  let s2 := fresh "s2" in
  let H := fresh "H" in
  intros s1 s2 H;
  destruct H as (Herrno & Herror & Himages & Htrace & Hfp);
  destruct s1 as [fs1 errno1 fp1 error1 images1 trace1];
  destruct s2 as [fs2 errno2 fp2 error2 images2 trace2];
  cbn [st_fs st_errno st_fp st_error st_images st_trace] in *;
  subst errno2 error2 images2 trace2.

Lemma ignores_magic_emit (e : Event) : ignores_magic (emit e).
Proof. related_states. repeat split. exact Hfp. Qed.

Lemma ignores_magic_get_errno : ignores_magic get_errno.
Proof. related_states. repeat split. exact Hfp. Qed.

Lemma ignores_magic_g_set_error (d : GQuark) (c : Z) (msg : string) :
  ignores_magic (g_set_error d c msg).
Proof.
  related_states. unfold g_set_error.
  cbn [st_fs st_errno st_fp st_error st_images st_trace].
  destruct error1; repeat split; exact Hfp.
Qed.

Lemma ignores_magic_fclose : ignores_magic fclose.
Proof. related_states. repeat split. Qed.

Lemma ignores_magic_fseek (offset : Z) :
  4 <= offset -> ignores_magic (fseek offset).
Proof.
  intros Hoff. related_states. unfold fseek.
  cbn [st_fs st_errno st_fp st_error st_images st_trace].
  destruct fp1 as [f1|], fp2 as [f2|]; try contradiction.
  - rewrite (proj2 (Z.ltb_ge offset 0)) by lia.
    destruct Hfp as (Hpos & Hpast & Hdata).
    repeat split; cbn; try assumption; lia.
  - repeat split.
Qed.

Lemma skipn_from_4 {A} (pos : nat) (l : list A) :
  (4 <= pos)%nat -> skipn pos l = skipn (pos - 4) (skipn 4 l).
Proof.
  intros Hpos. rewrite skipn_skipn_add. f_equal. lia.
Qed.

Lemma ignores_magic_fread (size nmemb : nat) :
  ignores_magic (fread size nmemb).
Proof.
  related_states. unfold fread.
  cbn [st_fs st_errno st_fp st_error st_images st_trace].
  destruct fp1 as [[data1 pos1]|], fp2 as [[data2 pos2]|];
    try contradiction.
  - cbn [f_pos f_data] in *. destruct Hfp as (Hpos & Hpast & Hdata).
    subst pos2.
    rewrite (skipn_from_4 pos1 data1), (skipn_from_4 pos1 data2) by lia.
    rewrite Hdata. unfold bind, set_fp, emit, ret.
    cbn [fst snd st_fs st_errno st_fp st_error st_images st_trace].
    split; [reflexivity|]. unfold same_past_magic.
    cbn [st_fs st_errno st_fp st_error st_images st_trace f_pos f_data].
    repeat split; try assumption; lia.
  - split; [reflexivity|]. repeat split.
Qed.

Lemma ignores_magic_update_image (image : GimpImagePtr)
    (f : GimpImage -> GimpImage) :
  ignores_magic (update_image image f).
Proof.
  related_states. unfold update_image.
  destruct image; repeat split; exact Hfp.
Qed.

Section MagicInBody.

Context (host : Host).

Lemma ignores_magic_image_new (width height : Z) (t : GimpImageBaseType)
    (p : GimpPrecision) :
  ignores_magic (gimp_image_new_with_precision host width height t p).
Proof.
  related_states. unfold gimp_image_new_with_precision.
  cbn [st_fs st_errno st_fp st_error st_images st_trace].
  destruct ((1 <=? width) && (width <=? GIMP_MAX_IMAGE_SIZE host)
            && (1 <=? height) && (height <=? GIMP_MAX_IMAGE_SIZE host));
    repeat split; exact Hfp.
Qed.

Lemma ignores_magic_scanlines (image : GimpImagePtr) (width row_size : Z) :
  forall n i, ignores_magic (scanlines host n i image width row_size).
Proof.
  induction n as [|n IH]; intros i; cbn [scanlines].
  - apply ignores_magic_ret.
  - apply ignores_magic_bind; [apply ignores_magic_fread|].
    intros [cnt got]. destruct (cnt =? 0)%nat.
    + apply ignores_magic_bind; [apply ignores_magic_get_errno|]. intros e.
      apply ignores_magic_bind; [apply ignores_magic_g_set_error|]. intros _.
      apply ignores_magic_ret.
    + apply ignores_magic_bind; [|intros _; apply IH].
      unfold gegl_buffer_set.
      apply ignores_magic_bind; [apply ignores_magic_update_image|].
      intros _. apply ignores_magic_emit.
Qed.

Lemma ignores_magic_read_dimensions : ignores_magic (read_dimensions host).
Proof.
  unfold read_dimensions.
  apply ignores_magic_bind; [apply ignores_magic_fseek; lia|]. intros rc.
  destruct (negb (rc =? 0)).
  - apply ignores_magic_bind; [apply ignores_magic_get_errno|]. intros e.
    apply ignores_magic_bind; [apply ignores_magic_g_set_error|]. intros _.
    apply ignores_magic_bind; [apply ignores_magic_fclose|]. intros _.
    apply ignores_magic_ret.
  - apply ignores_magic_bind; [apply ignores_magic_fread|].
    intros [n_width width_bytes].
    apply ignores_magic_bind.
    { destruct (n_width =? 0)%nat;
        [apply ignores_magic_ret|apply ignores_magic_fread]. }
    intros [n_height height_bytes].
    destruct ((n_width =? 0)%nat || (n_height =? 0)%nat).
    + apply ignores_magic_bind; [apply ignores_magic_get_errno|]. intros e.
      apply ignores_magic_bind; [apply ignores_magic_g_set_error|]. intros _.
      apply ignores_magic_bind; [apply ignores_magic_fclose|]. intros _.
      apply ignores_magic_ret.
    + apply ignores_magic_ret.
Qed.

Lemma ignores_magic_decode_pixels (width height : Z) :
  ignores_magic (decode_pixels host width height).
Proof.
  unfold decode_pixels.
  destruct (if (width >? GIMP_MAX_IMAGE_SIZE host)
               || (height >? GIMP_MAX_IMAGE_SIZE host)
            then None else g_size_checked_mul host width (2 * 4))
    as [row_size|].
  - apply ignores_magic_bind; [apply ignores_magic_image_new|]. intros image.
    apply ignores_magic_bind.
    { unfold gimp_image_insert_layer. apply ignores_magic_update_image. }
    intros _.
    apply ignores_magic_bind.
    { unfold g_try_malloc.
      apply ignores_magic_bind; [apply ignores_magic_emit|]. intros _.
      apply ignores_magic_ret. }
    intros pixels. destruct (negb pixels).
    + apply ignores_magic_bind; [apply ignores_magic_g_set_error|]. intros _.
      apply ignores_magic_bind; [apply ignores_magic_fclose|]. intros _.
      apply ignores_magic_ret.
    + apply ignores_magic_bind; [apply ignores_magic_scanlines|].
      intros completed. destruct (negb completed).
      * apply ignores_magic_ret.
      * apply ignores_magic_bind; [apply ignores_magic_emit|]. intros _.
        apply ignores_magic_bind; [apply ignores_magic_fclose|]. intros _.
        apply ignores_magic_ret.
  - apply ignores_magic_bind; [apply ignores_magic_g_set_error|]. intros _.
    apply ignores_magic_bind; [apply ignores_magic_fclose|]. intros _.
    apply ignores_magic_ret.
Qed.

Lemma ignores_magic_commented_out_body :
  ignores_magic (commented_out_body host).
Proof.
  unfold commented_out_body.
  apply ignores_magic_bind; [apply ignores_magic_read_dimensions|].
  intros [[width height]|].
  - apply ignores_magic_decode_pixels.
  - apply ignores_magic_ret.
Qed.

(** With the text of the comment in force too, a file gets the answer of
    the same file with any other 4 bytes in front: the pointer returned,
    [*error], errno, the images, the calls and the place of the stream
    with the bytes ahead of it are the same. *)
Lemma load_image_with_body_ignores_magic (file : GFile) (s : State)
    (contents magic : list byte) :
  st_fs s (g_file_peek_path file) = Regular contents ->
  (4 <= List.length contents)%nat ->
  List.length magic = 4%nat ->
  let r := load_image_with_body host file s in
  let r' := load_image_with_body host file
              (with_file (g_file_peek_path file)
                 (with_magic magic contents) s) in
  fst r' = fst r /\
  st_error (snd r') = st_error (snd r) /\
  st_errno (snd r') = st_errno (snd r) /\
  st_images (snd r') = st_images (snd r) /\
  st_trace (snd r') = st_trace (snd r) /\
  stream_view (snd r') = stream_view (snd r).
Proof.
  intros Hfs Hlen Hmagic r r'. subst r r'.
  rewrite (load_image_with_body_enters host file s contents) by assumption.
  rewrite (load_image_with_body_enters host file _
             (with_magic magic contents));
    [|cbn [with_file st_fs]; rewrite String.eqb_refl; reflexivity
     |unfold with_magic; rewrite length_app; lia].
  cbn [with_file st_fs st_errno st_fp st_error st_images st_trace].
  assert (Hrel :
    same_past_magic
      (mkState (fun p => if (p =? g_file_peek_path file)%string
                         then Regular (with_magic magic contents)
                         else st_fs s p)
         (st_errno s) (Some (mkFILE (with_magic magic contents) 4))
         (st_error s) (st_images s)
         (st_trace s ++ [Ev_fopen (g_file_peek_path file) true;
                         Ev_fread 0 4 1 1]))
      (mkState (st_fs s) (st_errno s) (Some (mkFILE contents 4))
         (st_error s) (st_images s)
         (st_trace s ++ [Ev_fopen (g_file_peek_path file) true;
                         Ev_fread 0 4 1 1]))).
  { unfold same_past_magic.
    cbn [st_errno st_error st_images st_trace st_fp f_pos f_data].
    repeat split; [lia|].
    unfold with_magic. rewrite (skipn_app 4 magic), skipn_all2 by lia.
    rewrite Hmagic, Nat.sub_diag. reflexivity. }
  destruct (ignores_magic_commented_out_body _ _ Hrel)
    as (Hres & Herrno & Herror & Himages & Htrace & Hfp).
  repeat split; try assumption.
  unfold stream_view.
  destruct (st_fp (snd (commented_out_body host
              (mkState (fun p => if (p =? g_file_peek_path file)%string
                                 then Regular (with_magic magic contents)
                                 else st_fs s p)
                 (st_errno s) (Some (mkFILE (with_magic magic contents) 4))
                 (st_error s) (st_images s)
                 (st_trace s ++ [Ev_fopen (g_file_peek_path file) true;
                                 Ev_fread 0 4 1 1])))))
    as [[data2 pos2]|];
  destruct (st_fp (snd (commented_out_body host
              (mkState (st_fs s) (st_errno s) (Some (mkFILE contents 4))
                 (st_error s) (st_images s)
                 (st_trace s ++ [Ev_fopen (g_file_peek_path file) true;
                                 Ev_fread 0 4 1 1])))))
    as [[data1 pos1]|];
    try contradiction; [|reflexivity].
  cbn [f_pos f_data] in *. destruct Hfp as (Hpos & Hpast & Hdata).
  subst pos1.
  rewrite (skipn_from_4 pos2 data2), (skipn_from_4 pos2 data1) by lia.
  rewrite Hdata. reflexivity.
Qed.

End MagicInBody.

(** * The claims the compiled code does not meet

    Each of the following evaluates [load_image] on an input that meets the
    premises of a claim about decoding.  The outcome is the same everywhere:
    NULL, with [*error] left NULL, after one read of 4 bytes. *)

Ltac no_such_error :=
  let He := fresh "He" in
  intros (_ & ? & He & _); vm_compute in He; discriminate He.

(** C1. Scenario 1 is a file with the magic "SDPX", width 2 and height 1 at
    offsets 772 and 776 and one complete row of pixel data, and
    [load_image] returns NULL for it: no raster of 2 x 1 pixels, nor of any
    other size, comes back. *)
Theorem valid_file_is_not_decoded (host : Host) :
  firstn 4 scenario1 = magic_SDPX /\
  header_width scenario1 = Some 2 /\
  header_height scenario1 = Some 1 /\
  complete_rows 2 scenario1 = 1%nat /\
  fst (run_load_image host scenario1) = None /\
  st_error (snd (run_load_image host scenario1)) = None /\
  forall w h rows, ~ yields_raster (run_load_image host scenario1) w h rows.
Proof.
  repeat (split; [vm_compute; reflexivity|]).
  intros w h rows. apply load_image_never_yields_raster.
Qed.

(** C4. Scenario 2 has a valid header for 2 x 1 pixels and 12 of the 16
    bytes of its only row.  [load_image] returns NULL for it and stores no
    error at all, so the failure is not reported as PrematureEOF. *)
Theorem short_pixel_data_is_not_reported (host : Host) :
  firstn 4 scenario2 = magic_SDPX /\
  header_width scenario2 = Some 2 /\
  header_height scenario2 = Some 1 /\
  complete_rows 2 scenario2 = 0%nat /\
  fst (run_load_image host scenario2) = None /\
  st_error (snd (run_load_image host scenario2)) = None /\
  ~ fails_with (run_load_image host scenario2) PrematureEOF.
Proof.
  repeat (split; [vm_compute; reflexivity|]). no_such_error.
Qed.

(** C5. A header announcing the width 0xFFFFFFFF is turned down without any
    allocation, and without an error: [load_image] returns NULL with
    [*error] left NULL, neither DimensionsTooLarge nor DimensionOverflow. *)
Theorem huge_width_is_not_reported (host : Host) :
  firstn 4 huge_width = magic_SDPX /\
  header_width huge_width = Some 0xFFFFFFFF /\
  fst (run_load_image host huge_width) = None /\
  filter is_malloc (st_trace (snd (run_load_image host huge_width))) = [] /\
  st_error (snd (run_load_image host huge_width)) = None /\
  ~ fails_with (run_load_image host huge_width) DimensionsTooLarge /\
  ~ fails_with (run_load_image host huge_width) DimensionOverflow.
Proof.
  repeat (split; [vm_compute; reflexivity|]). split; no_such_error.
Qed.

(** C6. Decoding the file of scenario 1 does not yield the raster with the
    pixels (256,512,768,65535) and (1024,1280,1536,65535): the image
    pointer that comes back is NULL. *)
Theorem scenario1_yields_no_pixels (host : Host) :
  fst (run_load_image host scenario1) = None /\
  ~ yields_raster (run_load_image host scenario1) 2 1
      [[256; 512; 768; 65535; 1024; 1280; 1536; 65535]].
Proof. apply load_image_never_yields_raster. Qed.

(** C7. No raster survives the round trip: whatever bytes an encoder makes
    of a raster, and so for the big-endian encoding with an "SDPX" header,
    [load_image] returns NULL for them instead of the raster; the 1 x 1
    raster (1,2,3,4) is an instance. *)
Theorem round_trip_loses_the_raster (host : Host) :
  raster_wf 1 1 one_pixel /\
  ~ yields_raster (run_load_image host (encode_dpx 1 1 one_pixel))
      1 1 one_pixel /\
  forall (encoder : Z -> Z -> list Row -> list byte) w h rows,
    ~ yields_raster (run_load_image host (encoder w h rows)) w h rows.
Proof.
  split.
  { split; [reflexivity|]. repeat constructor; cbn; lia. }
  split; [|intros encoder w h rows]; apply load_image_never_yields_raster.
Qed.

(** C9. For the file of scenario 1, whose height is 1, the stream sees one
    read, that of the 4 magic bytes at offset 0: row 0 is never read,
    converted or written, and the stream is left open at offset 4. *)
Theorem no_row_is_processed (host : Host) :
  header_height scenario1 = Some 1 /\
  st_trace (snd (run_load_image host scenario1))
  = [Ev_fopen "/tmp/a.dpx" true; Ev_fread 0 4 1 1] /\
  filter is_fread (st_trace (snd (run_load_image host scenario1)))
  = [Ev_fread 0 4 1 1] /\
  st_fp (snd (run_load_image host scenario1)) = Some (mkFILE scenario1 4).
Proof. repeat split. Qed.

(** * Instances *)

(** The file that begins with "XPDS" is not failed with BadMagic, nor with
    anything else: [load_image] stores no error for it.  Nor would the
    text of the comment: with it the same file is decoded. *)
Lemma xpds_file_stores_no_error :
  firstn 4 scenario3 = magic_XPDS /\
  firstn 4 scenario3 <> magic_SDPX /\
  st_error (snd (run_load_image linux_amd64 scenario3)) = None /\
  (forall k, ~ fails_with (run_load_image linux_amd64 scenario3) k) /\
  yields_raster (run_with_body linux_amd64 scenario3) 2 1
    [[256; 512; 768; 65535; 1024; 1280; 1536; 65535]].
Proof.
  split; [reflexivity|]. split; [vm_compute; discriminate|].
  split; [reflexivity|]. split.
  - intros k. no_such_error.
  - exists 0%nat. do 2 eexists. vm_compute. repeat split.
Qed.

Lemma magic_not_compared_witness :
  let r := run_load_image linux_amd64 scenario3 in
  let r' := load_image linux_amd64 a_file
              (with_file "/tmp/a.dpx" (with_magic magic_SDPX scenario3)
                 (entry (disk scenario3) 0 [])) in
  with_magic magic_SDPX scenario3 = scenario1 /\
  fst r' = fst r /\
  st_error (snd r') = st_error (snd r) /\
  st_errno (snd r') = st_errno (snd r) /\
  st_images (snd r') = st_images (snd r) /\
  st_trace (snd r') = st_trace (snd r) /\
  stream_view (snd r') = stream_view (snd r).
Proof.
  split; [reflexivity|].
  apply (magic_is_read_and_not_compared linux_amd64 a_file
           (entry (disk scenario3) 0 []) scenario3 magic_SDPX).
  - reflexivity.
  - vm_compute. lia.
  - reflexivity.
Defined.

Lemma magic_read_witness :
  fst (run_load_image linux_amd64 scenario1) = None /\
  st_error (snd (run_load_image linux_amd64 scenario1)) = None /\
  fst (dpx_load linux_amd64 a_file (entry (disk scenario1) 0 []))
  = mkValues GIMP_PDB_EXECUTION_ERROR None None.
Proof.
  apply (magic_read_leaves_error_unset linux_amd64 a_file
           (entry (disk scenario1) 0 []) scenario1).
  - reflexivity.
  - vm_compute. lia.
Defined.

Lemma short_file_witness :
  fails_with (run_load_image linux_amd64 [x53; x44]) TruncatedHeader /\
  st_error (snd (run_load_image linux_amd64 [x53; x44]))
  = Some (mkGError G_FILE_ERROR 24 "Failed to read Dpx header") /\
  st_fp (snd (run_load_image linux_amd64 [x53; x44])) = None /\
  st_images (snd (run_load_image linux_amd64 [x53; x44])) = [].
Proof.
  apply (short_file_fails_with_TruncatedHeader linux_amd64 a_file
           (entry (disk [x53; x44]) 0 []) [x53; x44]).
  - reflexivity.
  - cbn. lia.
  - reflexivity.
Defined.

(** * Further properties of the compiled code *)

Lemma open_streams_app (tr tr' : list Event) :
  open_streams (tr ++ tr') = open_streams tr + open_streams tr'.
Proof.
  induction tr as [|e tr IH]; cbn [app open_streams]; [lia|].
  destruct e as [path [|]| | | | | | |]; rewrite ?IH; lia.
Qed.

Section EntryPoint.

Context (host : Host).

(** The three runs of [dpx_load], which enters [load_image] with its own
    [error] set to NULL whatever the state held. *)
Lemma dpx_load_run (file : GFile) (s : State) :
  dpx_load host file s =
    (gimp_procedure_new_return_values GIMP_PDB_EXECUTION_ERROR
       (st_error (snd (load_image host file
          (mkState (st_fs s) (st_errno s) (st_fp s) None (st_images s)
             (st_trace s))))),
     snd (load_image host file
            (mkState (st_fs s) (st_errno s) (st_fp s) None (st_images s)
               (st_trace s)))).
Proof.
  unfold dpx_load, bind at 1, clear_error. unfold bind at 1.
  pose proof (load_image_never_yields_raster host file
                (mkState (st_fs s) (st_errno s) (st_fp s) None (st_images s)
                   (st_trace s)) 0 0 []) as [Hnull _].
  destruct (load_image host file _) as [image s']. cbn in Hnull. subst image.
  reflexivity.
Qed.

(** When the file cannot be opened, [dpx_load] answers with the error of
    [load_image]'s first exit: a G_FILE_ERROR coded after the errno the
    failed open has left, whose message names the file and gives the text
    of that errno.  No stream exists afterwards and nothing was read. *)
Theorem dpx_load_reports_open_failure (file : GFile) (s : State) (err : Z) :
  st_fs s (g_file_peek_path file) = Unreadable err ->
  let r := dpx_load host file s in
  let e := mkGError G_FILE_ERROR (g_file_error_from_errno host err)
             ("Could not open '" ++ gimp_file_get_utf8_name file
                ++ "' for reading: " ++ g_strerror host err)%string in
  fst r = mkValues GIMP_PDB_EXECUTION_ERROR (Some e) None /\
  error_kind e = Some IOError /\
  st_fp (snd r) = st_fp s /\
  st_trace (snd r) = st_trace s ++ [Ev_fopen (g_file_peek_path file) false].
Proof.
  intros Hfs r e. subst r e.
  rewrite dpx_load_run. cbn [fst snd].
  rewrite (load_image_unreadable host file _ err) by exact Hfs.
  cbn [snd st_error st_fp st_trace].
  split; [reflexivity|]. split; [|split; reflexivity].
  unfold error_kind. cbn [message]. cbn.
  match goal with
  | |- context [prefix "" ?rest] => destruct rest; reflexivity
  end.
Qed.

(** [dpx_load] never reports success: its status is
    GIMP_PDB_EXECUTION_ERROR and its image NULL for every file, and it
    leaves the images GIMP holds and the file system as they were.  The
    lines that build the success values are never reached. *)
Theorem dpx_load_never_succeeds (file : GFile) (s : State) :
  rv_status (fst (dpx_load host file s)) = GIMP_PDB_EXECUTION_ERROR /\
  rv_image (fst (dpx_load host file s)) = None /\
  st_images (snd (dpx_load host file s)) = st_images s /\
  st_fs (snd (dpx_load host file s)) = st_fs s.
Proof.
  rewrite dpx_load_run. cbn [fst snd].
  destruct (st_fs s (g_file_peek_path file)) as [err|contents] eqn:Hfs.
  - rewrite (load_image_unreadable host file _ err) by exact Hfs.
    repeat split.
  - destruct (lt_dec (List.length contents) 4) as [Hlt|Hge].
    + rewrite (load_image_short host file _ contents) by assumption.
      repeat split.
    + rewrite (load_image_long host file _ contents) by (assumption || lia).
      repeat split.
Qed.

(** [load_image] closes the stream only when the read of the magic fails.
    After a read that succeeds it returns with the stream still open at
    offset 4: every call on a file of 4 bytes or more leaves one more
    stream open than it found, every other call leaves as many. *)
Theorem load_image_stream_balance (file : GFile) (s : State) :
  let s' := snd (load_image host file s) in
  match st_fs s (g_file_peek_path file) with
  | Unreadable _ =>
      open_streams (st_trace s') = open_streams (st_trace s) /\
      st_fp s' = st_fp s
  | Regular contents =>
      if (List.length contents <? 4)%nat then
        open_streams (st_trace s') = open_streams (st_trace s) /\
        st_fp s' = None
      else
        open_streams (st_trace s') = open_streams (st_trace s) + 1 /\
        st_fp s' = Some (mkFILE contents 4)
  end.
Proof.
  destruct (st_fs s (g_file_peek_path file)) as [err|contents] eqn:Hfs;
    cbv zeta.
  - rewrite (load_image_unreadable host file _ err) by exact Hfs.
    cbn [snd st_trace st_fp]. rewrite open_streams_app. cbn. split; [lia|].
    reflexivity.
  - destruct (Nat.ltb_spec (List.length contents) 4) as [Hlt|Hge].
    + rewrite (load_image_short host file _ contents) by assumption.
      cbn [snd st_trace st_fp]. rewrite open_streams_app. cbn.
      split; [lia|reflexivity].
    + rewrite (load_image_long host file _ contents) by assumption.
      cbn [snd st_trace st_fp]. rewrite open_streams_app. cbn.
      split; [lia|reflexivity].
Qed.


(** The names [dpx_query_procedures] announces are exactly the names
    [dpx_create_procedure] makes a procedure for, and the procedure made
    carries the name it was asked for, as its name and as its help id. *)
Theorem query_and_create_agree (name : string) :
  (In name dpx_query_procedures <->
   exists p, dpx_create_procedure host name = Some p) /\
  forall p, dpx_create_procedure host name = Some p ->
            p_name p = name /\ p_help_id p = name /\
            p_extensions p = "dpx"%string /\
            p_magics p = "0,string,SDPX"%string.
Proof.
  unfold dpx_create_procedure, dpx_query_procedures.
  destruct (String.eqb_spec name LOAD_PROC) as [Heq|Hneq].
  - split.
    + split; [intros _; eexists; reflexivity|intros _; left; congruence].
    + intros p [= <-]. repeat split.
  - split.
    + split.
      * intros [Heq|[]]. congruence.
      * intros [p Hp]. discriminate.
    + intros p Hp. discriminate.
Qed.

(** Whatever procedure the plug-in hands to GIMP, running it on a file
    loads nothing: the run ends in GIMP_PDB_EXECUTION_ERROR with a NULL
    image and no image added to those GIMP holds. *)
Theorem created_procedure_never_loads (name : string) (p : GimpProcedure)
    (file : GFile) (s : State) :
  dpx_create_procedure host name = Some p ->
  rv_status (fst (p_run p file s)) = GIMP_PDB_EXECUTION_ERROR /\
  rv_image (fst (p_run p file s)) = None /\
  st_images (snd (p_run p file s)) = st_images s.
Proof.
  unfold dpx_create_procedure.
  destruct (name =? LOAD_PROC)%string; [|discriminate].
  intros [= <-]. cbn [p_run].
  rewrite dpx_load_run. cbn [fst snd].
  destruct (st_fs s (g_file_peek_path file)) as [err|contents] eqn:Hfs.
  - rewrite (load_image_unreadable host file _ err) by exact Hfs.
    repeat split.
  - destruct (lt_dec (List.length contents) 4) as [Hlt|Hge].
    + rewrite (load_image_short host file _ contents) by assumption.
      repeat split.
    + rewrite (load_image_long host file _ contents) by (assumption || lia).
      repeat split.
Qed.

End EntryPoint.

(** * Further properties of the text inside the comment

    As before, these say what [load_image_with_body] would do, the function
    with the comment delimiters of lines 210 and 279 taken away; the
    compiled [load_image] does none of it. *)

Lemma row_events_keep_resources (n : nat) :
  forall (i : Z) (pos size : nat),
    filter is_fclose (row_events n i pos size) = [] /\
    filter is_free (row_events n i pos size) = [].
Proof.
  induction n as [|n IH]; intros i pos size; [split; reflexivity|].
  cbn [row_events filter is_fclose is_free]. apply IH.
Qed.

Lemma read_extent_row_events (n : nat) :
  forall (i : Z) (pos size : nat),
    (read_extent (row_events n i pos size) <= pos + n * size)%nat.
Proof.
  induction n as [|n IH]; intros i pos size; [cbn; lia|].
  cbn [row_events read_extent]. specialize (IH (i + 1) (pos + size)%nat size).
  lia.
Qed.

Lemma open_streams_row_events (n : nat) :
  forall (i : Z) (pos size : nat), open_streams (row_events n i pos size) = 0.
Proof.
  induction n as [|n IH]; intros i pos size; [reflexivity|].
  cbn [row_events open_streams]. apply IH.
Qed.

Lemma row_events_freads (n : nat) :
  forall (i : Z) (pos size : nat),
    List.length (filter is_fread (row_events n i pos size)) = n.
Proof.
  induction n as [|n IH]; intros i pos size; [reflexivity|].
  cbn [row_events filter is_fread List.length]. rewrite IH. reflexivity.
Qed.

Section BodyFurther.

Context (host : Host).

Local Arguments firstn : simpl never.
Local Arguments skipn : simpl never.
Local Arguments Nat.div : simpl never.
Local Arguments Z.mul : simpl never.
Local Arguments Z.to_nat : simpl never.
Local Arguments Nat.mul : simpl never.

(** With the header read, the function stands before the check of the
    dimensions, the stream at offset 780. *)
Lemma body_after_header (file : GFile) (s : State) (contents : list byte)
    (w h : Z) :
  st_fs s (g_file_peek_path file) = Regular contents ->
  (780 <= List.length contents)%nat ->
  header_width contents = Some w ->
  header_height contents = Some h ->
  load_image_with_body host file s =
    decode_pixels host w h
      (mkState (st_fs s) (st_errno s) (Some (mkFILE contents 780))
         (st_error s) (st_images s)
         (st_trace s ++
            [Ev_fopen (g_file_peek_path file) true; Ev_fread 0 4 1 1;
             Ev_fseek 772 0; Ev_fread 772 4 1 1; Ev_fread 776 4 1 1])).
Proof.
  intros Hfs Hlen Hw Hh.
  rewrite (load_image_with_body_enters host _ _ _ Hfs) by lia.
  unfold commented_out_body.
  erewrite bind_run
    by (apply (read_dimensions_run host _ contents 4 w h);
        cbn [st_fp]; (reflexivity || assumption)).
  cbv iota beta.
  cbn [st_fs st_errno st_fp st_error st_images st_trace].
  rewrite <- !app_assoc. reflexivity.
Qed.

Lemma size_check_passes (width height : Z) :
  width <= GIMP_MAX_IMAGE_SIZE host ->
  height <= GIMP_MAX_IMAGE_SIZE host ->
  width * 8 <= G_MAXSIZE host ->
  (if (width >? GIMP_MAX_IMAGE_SIZE host)
      || (height >? GIMP_MAX_IMAGE_SIZE host)
   then None else g_size_checked_mul host width (2 * 4))
  = Some (width * 8).
Proof.
  intros Hw Hh Hsize. unfold g_size_checked_mul.
  destruct (Z.gtb_spec width (GIMP_MAX_IMAGE_SIZE host)); [lia|].
  destruct (Z.gtb_spec height (GIMP_MAX_IMAGE_SIZE host)); [lia|].
  cbn [orb]. replace (width * (2 * 4)) with (width * 8) by lia.
  destruct (Z.leb_spec (width * 8) (G_MAXSIZE host)); [reflexivity|lia].
Qed.

(** The run of [decode_pixels] up to the answer of [g_try_malloc], for
    dimensions GIMP makes an image of: the image exists and has its layer
    by then. *)
Lemma decode_pixels_until_malloc (s : State) (width height : Z) :
  1 <= width <= GIMP_MAX_IMAGE_SIZE host ->
  1 <= height <= GIMP_MAX_IMAGE_SIZE host ->
  width * 8 <= G_MAXSIZE host ->
  decode_pixels host width height s =
    (let ok := negb (width * 8 =? 0) && heap_grants host (width * 8) in
     let image := Some (List.length (st_images s)) in
     fun s1 =>
       if negb ok then
         (g_set_error GIMP_PLUG_IN_ERROR 0
            "There was not enough memory to complete the operation." ;;
          fclose ;; ret None) s1
       else
         (completed <- scanlines host (Z.to_nat height) 0 image width
                         (width * 8) ;;
          if negb completed then ret None
          else g_free ;; fclose ;; ret image) s1)
      (mkState (st_fs s) (st_errno s) (st_fp s) (st_error s)
         (st_images s ++
            [mkImage width height GIMP_RGB GIMP_PRECISION_U16_NON_LINEAR
               [gimp_layer_new "Background" width height GIMP_RGBA_IMAGE
                  100]])
         (st_trace s ++
            [Ev_image_new width height;
             Ev_malloc (width * 8)
               (negb (width * 8 =? 0) && heap_grants host (width * 8))])).
Proof.
  intros Hw Hh Hsize. unfold decode_pixels.
  rewrite size_check_passes by lia.
  unfold bind at 1, gimp_image_new_with_precision.
  rewrite image_size_accepted by assumption.
  unfold bind at 1, gimp_image_insert_layer, update_image.
  cbn [st_fs st_errno st_fp st_error st_images st_trace].
  rewrite update_nth_last.
  cbn [i_width i_height i_base_type i_precision i_layers].
  unfold bind at 1, g_try_malloc. unfold bind at 1, emit. unfold ret at 1.
  cbn [st_fs st_errno st_fp st_error st_images st_trace].
  rewrite <- !app_assoc. cbn [app]. cbv zeta.
  destruct (negb (width * 8 =? 0) && heap_grants host (width * 8));
    reflexivity.
Qed.

(** The same run for a width or a height of 0, which passes the check of
    the dimensions and which GIMP makes no image of: [image] is NULL and
    the images GIMP holds are as before. *)
Lemma decode_pixels_refused_until_malloc (s : State) (width height : Z) :
  width <= GIMP_MAX_IMAGE_SIZE host ->
  height <= GIMP_MAX_IMAGE_SIZE host ->
  width * 8 <= G_MAXSIZE host ->
  width < 1 \/ height < 1 ->
  decode_pixels host width height s =
    (let ok := negb (width * 8 =? 0) && heap_grants host (width * 8) in
     fun s1 =>
       if negb ok then
         (g_set_error GIMP_PLUG_IN_ERROR 0
            "There was not enough memory to complete the operation." ;;
          fclose ;; ret None) s1
       else
         (completed <- scanlines host (Z.to_nat height) 0 None width
                         (width * 8) ;;
          if negb completed then ret None
          else g_free ;; fclose ;; ret None) s1)
      (mkState (st_fs s) (st_errno s) (st_fp s) (st_error s) (st_images s)
         (st_trace s ++
            [Ev_image_new width height;
             Ev_malloc (width * 8)
               (negb (width * 8 =? 0) && heap_grants host (width * 8))])).
Proof.
  intros Hw Hh Hsize Hzero. unfold decode_pixels.
  rewrite (size_check_passes _ _ Hw Hh Hsize).
  unfold bind at 1, gimp_image_new_with_precision.
  assert (Hrefused :
    (1 <=? width) && (width <=? GIMP_MAX_IMAGE_SIZE host)
      && (1 <=? height) && (height <=? GIMP_MAX_IMAGE_SIZE host) = false).
  { destruct Hzero as [Hz|Hz].
    - rewrite (proj2 (Z.leb_gt 1 width)) by lia. reflexivity.
    - rewrite (proj2 (Z.leb_gt 1 height)) by lia.
      rewrite andb_false_r. reflexivity. }
  rewrite Hrefused.
  unfold bind at 1, gimp_image_insert_layer, update_image.
  cbn [st_fs st_errno st_fp st_error st_images st_trace].
  unfold bind at 1, g_try_malloc. unfold bind at 1, emit. unfold ret at 1.
  cbn [st_fs st_errno st_fp st_error st_images st_trace].
  rewrite <- !app_assoc. cbn [app]. cbv zeta.
  destruct (negb (width * 8 =? 0) && heap_grants host (width * 8));
    reflexivity.
Qed.

(** Lines 226, 227 and 269: a sample or a dimension stored high byte first
    comes out of [GUINT16_FROM_BE] or [GUINT32_FROM_BE] with the same
    value on a little-endian and on a big-endian host. *)
Theorem from_be_reads_high_byte_first :
  (forall b0 b1 : byte,
      GUINT16_FROM_BE host (load_u16 host b0 b1)
      = 256 * byte_val b0 + byte_val b1) /\
  (forall b0 b1 b2 b3 : byte,
      GUINT32_FROM_BE host (load_u32 host [b0; b1; b2; b3])
      = 16777216 * byte_val b0 + 65536 * byte_val b1
        + 256 * byte_val b2 + byte_val b3).
Proof.
  split.
  - intros b0 b1. apply GUINT16_FROM_BE_load.
  - intros b0 b1 b2 b3. apply GUINT32_FROM_BE_load. reflexivity.
Qed.

(** The text of the comment decodes a file by its dimensions and its pixel
    data alone: the first 4 bytes are not among the premises.  Every read
    stays within the header and the [h] rows, the stream is closed again
    and no error is stored. *)
Theorem body_decodes_whatever_the_magic (file : GFile) (s : State)
    (contents : list byte) (w h : Z) :
  st_fs s (g_file_peek_path file) = Regular contents ->
  header_width contents = Some w ->
  header_height contents = Some h ->
  1 <= w <= GIMP_MAX_IMAGE_SIZE host ->
  1 <= h <= GIMP_MAX_IMAGE_SIZE host ->
  w * 4 < 2 ^ 32 -> w * 8 <= G_MAXSIZE host ->
  heap_grants host (w * 8) = true ->
  (Z.to_nat h <= complete_rows w contents)%nat ->
  let r := load_image_with_body host file s in
  yields_raster r w h (file_rows w h contents) /\
  st_error (snd r) = st_error s /\
  st_fp (snd r) = None /\
  open_streams (st_trace (snd r)) = open_streams (st_trace s) /\
  (read_extent (st_trace (snd r))
   <= Nat.max (read_extent (st_trace s))
        (780 + Z.to_nat h * Z.to_nat (w * 8)))%nat.
Proof.
  intros Hfs Hw Hh Hwr Hhr Hsmall Hsize Hheap Hrows r. subst r.
  destruct (load_image_with_body_decodes host file s contents w h Hfs Hw Hh
              Hwr Hhr Hsmall Hsize Hheap Hrows)
    as (Hraster & Herr & Hfp & Htrace).
  repeat split; try assumption.
  - rewrite Htrace, !open_streams_app, open_streams_row_events. cbn. lia.
  - rewrite Htrace, !read_extent_app.
    pose proof (read_extent_row_events (Z.to_nat h) 0 780
                  (Z.to_nat (w * 8))) as Hrows_extent.
    cbn [read_extent]. lia.
Qed.

(** When the pixel data ends early the text of the comment returns NULL
    with the error "Premature end of Dpx pixel data", and returns at once:
    the stream is still open, the scanline buffer is not freed and the
    image created for the decode stays among those GIMP holds. *)
Theorem body_premature_end_releases_nothing (file : GFile) (s : State)
    (contents : list byte) (w h : Z) :
  st_fs s (g_file_peek_path file) = Regular contents ->
  st_error s = None ->
  (780 <= List.length contents)%nat ->
  header_width contents = Some w ->
  header_height contents = Some h ->
  1 <= w <= GIMP_MAX_IMAGE_SIZE host ->
  1 <= h <= GIMP_MAX_IMAGE_SIZE host ->
  w * 4 < 2 ^ 32 -> w * 8 <= G_MAXSIZE host ->
  heap_grants host (w * 8) = true ->
  (complete_rows w contents < Z.to_nat h)%nat ->
  let r := load_image_with_body host file s in
  fails_with r PrematureEOF /\
  st_fp (snd r) <> None /\
  open_streams (st_trace (snd r)) = open_streams (st_trace s) + 1 /\
  filter is_free (st_trace (snd r)) = filter is_free (st_trace s) /\
  List.length (st_images (snd r)) = S (List.length (st_images s)).
Proof.
  intros Hfs Herr Hlen Hw Hh Hwr Hhr Hsmall Hsize Hheap Hrows r. subst r.
  assert (Hmiss := rows_missing w h contents ltac:(lia) Hlen Hrows).
  rewrite (body_after_header file s contents w h) by assumption.
  rewrite decode_pixels_until_malloc by lia.
  rewrite Hheap.
  replace (w * 8 =? 0) with false by (symmetry; apply Z.eqb_neq; lia).
  cbn [negb andb]. cbv zeta beta iota.
  match goal with
  | |- context [bind (scanlines host ?n ?i (Some ?id) _ _) _ ?s1] =>
      destruct (scanlines_premature host id w (w * 8) contents ltac:(lia)
                  Hsmall ltac:(lia) n i 780%nat s1)
        as (s' & k & Hrun & He & Hopen & Himgs & Hk & Htrace);
      [reflexivity|exact Herr|exact Hmiss|]
  end.
  rewrite (bind_run _ _ _ _ _ Hrun). cbn [negb]. unfold ret. cbn [fst snd].
  cbn [st_images st_trace st_errno] in He, Himgs, Htrace.
  split; [|split; [|split; [|split]]].
  - split; [reflexivity|]. cbn [snd]. rewrite He.
    eexists. split; reflexivity.
  - exact Hopen.
  - rewrite Htrace, !open_streams_app, open_streams_row_events. cbn. lia.
  - rewrite Htrace, !filter_app.
    rewrite (proj2 (row_events_keep_resources k 0 780 (Z.to_nat (w * 8)))).
    cbn. rewrite !app_nil_r. reflexivity.
  - rewrite Himgs, length_app. cbn. lia.
Qed.

(** Dimensions beyond GIMP_MAX_IMAGE_SIZE, or a row size beyond G_MAXSIZE,
    make the text of the comment return NULL with the GIMP_PLUG_IN_ERROR
    "Image dimensions too large: width W x height H" before an image is
    created or a buffer asked for, the stream closed again. *)
Theorem body_rejects_large_dimensions (file : GFile) (s : State)
    (contents : list byte) (w h : Z) :
  st_fs s (g_file_peek_path file) = Regular contents ->
  st_error s = None ->
  (780 <= List.length contents)%nat ->
  header_width contents = Some w ->
  header_height contents = Some h ->
  w > GIMP_MAX_IMAGE_SIZE host \/ h > GIMP_MAX_IMAGE_SIZE host
    \/ w * 8 > G_MAXSIZE host ->
  let r := load_image_with_body host file s in
  fst r = None /\
  st_error (snd r)
  = Some (mkGError GIMP_PLUG_IN_ERROR 0
            ("Image dimensions too large: width " ++ printf_d w
               ++ " x height " ++ printf_d h)%string) /\
  st_fp (snd r) = None /\
  open_streams (st_trace (snd r)) = open_streams (st_trace s) /\
  st_images (snd r) = st_images s /\
  filter is_malloc (st_trace (snd r)) = filter is_malloc (st_trace s).
Proof.
  intros Hfs Herr Hlen Hw Hh Hbig r. subst r.
  rewrite (body_after_header file s contents w h) by assumption.
  rewrite decode_pixels_too_large by (cbn [st_error]; assumption).
  cbn [fst snd st_fs st_errno st_fp st_error st_images st_trace].
  repeat split.
  - rewrite !open_streams_app. cbn. lia.
  - rewrite !filter_app. cbn. rewrite !app_nil_r. reflexivity.
Qed.

(** A raster written out in big-endian rows under a header with its
    dimensions comes back from the text of the comment sample for sample,
    on a host of either byte order. *)
Theorem body_round_trip (file : GFile) (s : State) (w h : Z)
    (rows : list Row) :
  raster_wf w h rows ->
  st_fs s (g_file_peek_path file) = Regular (encode_dpx w h rows) ->
  1 <= w <= GIMP_MAX_IMAGE_SIZE host ->
  1 <= h <= GIMP_MAX_IMAGE_SIZE host ->
  w * 4 < 2 ^ 32 -> h < 2 ^ 32 -> w * 8 <= G_MAXSIZE host ->
  heap_grants host (w * 8) = true ->
  yields_raster (load_image_with_body host file s) w h rows /\
  file_rows w h (encode_dpx w h rows) = rows.
Proof.
  intros Hwf Hfs Hw Hh Hsmall Hhsmall Hsize Hheap.
  split.
  - apply load_image_with_body_round_trip; assumption.
  - destruct Hwf as [Hcount Hrows].
    destruct (encode_dpx_layout w h rows ltac:(lia) ltac:(lia))
      as (_ & _ & _ & Hdata).
    unfold file_rows. rewrite Hdata, <- Hcount.
    apply chunks_of_rows. exact Hrows.
Qed.

(** The seek and the reads on a file that ends before offset 780: the
    first read that comes up short ends this part. *)
Lemma read_dimensions_short (s : State) (contents : list byte) (pos : nat) :
  st_fp s = Some (mkFILE contents pos) ->
  st_error s = None ->
  (List.length contents < 780)%nat ->
  exists s',
    read_dimensions host s = (None, s') /\
    st_error s'
    = Some (mkGError G_FILE_ERROR (g_file_error_from_errno host (st_errno s))
              "Failed to read Dpx image dimensions") /\
    st_fp s' = None /\
    st_images s' = st_images s /\
    open_streams (st_trace s') = open_streams (st_trace s) - 1.
Proof.
  intros Hfp Herr Hlen. unfold read_dimensions.
  rewrite (bind_run _ _ _ _ _ (fseek_run s _ 772 Hfp ltac:(lia))).
  change (negb (0 =? 0)) with false. cbv iota.
  change (Z.to_nat 772) with 772%nat. cbn [f_data].
  destruct (le_lt_dec 776 (List.length contents)) as [Hw|Hw].
  - erewrite bind_run
      by (apply (fread_complete 4 _ contents 772);
          cbn [st_fp]; (reflexivity || lia)).
    cbn [Nat.eqb].
    match goal with
    | |- context [bind (fread 4 1) _ ?s2] =>
        destruct (fread_short 4 s2 contents (772 + 4))
          as (got & fp & Hread); [reflexivity|lia|]
    end.
    rewrite (bind_run _ _ _ _ _ Hread).
    cbn [Nat.eqb orb]. run_monad. rewrite Herr.
    eexists. split; [reflexivity|]. cbn [st_error st_fp st_images st_trace].
    repeat split. rewrite !open_streams_app. cbn. lia.
  - match goal with
    | |- context [bind (fread 4 1) _ ?s2] =>
        destruct (fread_short 4 s2 contents 772)
          as (got & fp & Hread); [reflexivity|lia|]
    end.
    rewrite (bind_run _ _ _ _ _ Hread).
    cbn [Nat.eqb orb]. run_monad. rewrite Herr.
    eexists. split; [reflexivity|]. cbn [st_error st_fp st_images st_trace].
    repeat split. rewrite !open_streams_app. cbn. lia.
Qed.

(** A file that ends before offset 780 gets, from the text of the comment,
    the error "Failed to read Dpx image dimensions" and a closed stream.
    The seek to offset 772 succeeds also when the file ends before it, so
    the seek error is never the one reported. *)
Theorem body_short_header (file : GFile) (s : State) (contents : list byte) :
  st_fs s (g_file_peek_path file) = Regular contents ->
  st_error s = None ->
  (4 <= List.length contents < 780)%nat ->
  let r := load_image_with_body host file s in
  fst r = None /\
  st_error (snd r)
  = Some (mkGError G_FILE_ERROR (g_file_error_from_errno host (st_errno s))
            "Failed to read Dpx image dimensions") /\
  st_fp (snd r) = None /\
  open_streams (st_trace (snd r)) = open_streams (st_trace s) /\
  st_images (snd r) = st_images s.
Proof.
  intros Hfs Herr Hlen r. subst r.
  rewrite (load_image_with_body_enters host _ _ _ Hfs) by lia.
  unfold commented_out_body.
  match goal with
  | |- context [bind (read_dimensions host) _ ?s1] =>
      destruct (read_dimensions_short s1 contents 4)
        as (s' & Hrun & He & Hfp & Himgs & Hopen);
      [reflexivity|exact Herr|lia|]
  end.
  rewrite (bind_run _ _ _ _ _ Hrun). unfold ret. cbn [fst snd].
  cbn [st_errno st_images st_trace] in He, Himgs, Hopen.
  rewrite open_streams_app in Hopen. cbn in Hopen.
  repeat split; try assumption. lia.
Qed.

(** When [g_try_malloc] gives no scanline buffer the text of the comment
    returns NULL with "There was not enough memory to complete the
    operation." and a closed stream, without reading any pixel data.  A
    width of 0 takes this way, since a request for 0 bytes yields NULL.
    For dimensions of 1 or more the image was created before the request
    and stays among those GIMP holds; for a width or height of 0 GIMP has
    made no image. *)
Theorem body_allocation_failure (file : GFile) (s : State)
    (contents : list byte) (w h : Z) :
  st_fs s (g_file_peek_path file) = Regular contents ->
  st_error s = None ->
  (780 <= List.length contents)%nat ->
  header_width contents = Some w ->
  header_height contents = Some h ->
  0 <= w <= GIMP_MAX_IMAGE_SIZE host ->
  0 <= h <= GIMP_MAX_IMAGE_SIZE host ->
  w * 8 <= G_MAXSIZE host ->
  w = 0 \/ heap_grants host (w * 8) = false ->
  let r := load_image_with_body host file s in
  fails_with r OutOfMemory /\
  st_fp (snd r) = None /\
  open_streams (st_trace (snd r)) = open_streams (st_trace s) /\
  (read_extent (st_trace (snd r))
   <= Nat.max (read_extent (st_trace s)) 780)%nat /\
  List.length (st_images (snd r))
  = if (1 <=? w) && (1 <=? h) then S (List.length (st_images s))
    else List.length (st_images s).
Proof.
  intros Hfs Herr Hlen Hw Hh Hwr Hhr Hsize Hfail r. subst r.
  rewrite (body_after_header file s contents w h) by assumption.
  assert (Hok : negb (w * 8 =? 0) && heap_grants host (w * 8) = false).
  { destruct Hfail as [-> | Hheap].
    - reflexivity.
    - rewrite Hheap. apply andb_false_r. }
  destruct (Z.leb_spec 1 w) as [Hw1|Hw0];
    [destruct (Z.leb_spec 1 h) as [Hh1|Hh0]|]; cbn [andb].
  - rewrite decode_pixels_until_malloc by lia.
    rewrite Hok. cbv zeta beta. cbn [negb]. run_monad. rewrite Herr.
    cbn [fst snd st_error st_fp st_images st_trace].
    split; [|split; [|split; [|split]]].
    + split; [reflexivity|]. eexists. split; reflexivity.
    + reflexivity.
    + rewrite !open_streams_app. cbn. lia.
    + rewrite !read_extent_app. cbn. lia.
    + rewrite length_app. cbn. lia.
  - rewrite decode_pixels_refused_until_malloc by lia.
    rewrite Hok. cbv zeta beta. cbn [negb]. run_monad. rewrite Herr.
    cbn [fst snd st_error st_fp st_images st_trace].
    split; [|split; [|split; [|split]]].
    + split; [reflexivity|]. eexists. split; reflexivity.
    + reflexivity.
    + rewrite !open_streams_app. cbn. lia.
    + rewrite !read_extent_app. cbn. lia.
    + reflexivity.
  - rewrite decode_pixels_refused_until_malloc by lia.
    rewrite Hok. cbv zeta beta. cbn [negb]. run_monad. rewrite Herr.
    cbn [fst snd st_error st_fp st_images st_trace].
    split; [|split; [|split; [|split]]].
    + split; [reflexivity|]. eexists. split; reflexivity.
    + reflexivity.
    + rewrite !open_streams_app. cbn. lia.
    + rewrite !read_extent_app. cbn. lia.
    + reflexivity.
Qed.


(** The loop of the text of the comment takes the rows in the order of
    the file, each once: in a decode of [h] rows, row [k] is read at offset
    [780 + k * row_size] by the read number [k] after the header and is
    written to row [k] of the buffer right after, before the next read. *)
Theorem body_reads_rows_in_order (file : GFile) (s : State)
    (contents : list byte) (w h : Z) (k : nat) :
  st_fs s (g_file_peek_path file) = Regular contents ->
  header_width contents = Some w ->
  header_height contents = Some h ->
  1 <= w <= GIMP_MAX_IMAGE_SIZE host ->
  1 <= h <= GIMP_MAX_IMAGE_SIZE host ->
  w * 4 < 2 ^ 32 -> w * 8 <= G_MAXSIZE host ->
  heap_grants host (w * 8) = true ->
  (Z.to_nat h <= complete_rows w contents)%nat ->
  (k < Z.to_nat h)%nat ->
  let tr := st_trace (snd (load_image_with_body host file s)) in
  nth_error tr (List.length (st_trace s) + 7 + 2 * k)
  = Some (Ev_fread (780 + k * Z.to_nat (w * 8)) (Z.to_nat (w * 8)) 1 1) /\
  nth_error tr (List.length (st_trace s) + 7 + 2 * k + 1)
  = Some (Ev_buffer_set (Z.of_nat k)) /\
  List.length (filter is_fread tr)
  = (List.length (filter is_fread (st_trace s)) + 3 + Z.to_nat h)%nat.
Proof.
  intros Hfs Hw Hh Hwr Hhr Hsmall Hsize Hheap Hrows Hk tr. subst tr.
  destruct (load_image_with_body_decodes host file s contents w h Hfs Hw Hh
              Hwr Hhr Hsmall Hsize Hheap Hrows)
    as (_ & _ & _ & Htrace).
  rewrite Htrace.
  destruct (row_events_nth (Z.to_nat h) 0 780 (Z.to_nat (w * 8)) k Hk)
    as [Hread Hwrite].
  pose proof (row_events_length (Z.to_nat h) 0 780 (Z.to_nat (w * 8)))
    as Hlen.
  split; [|split].
  - rewrite nth_error_app2 by lia.
    replace (List.length (st_trace s) + 7 + 2 * k - List.length (st_trace s))%nat
      with (7 + 2 * k)%nat by lia.
    rewrite nth_error_app2 by (cbn [List.length]; lia).
    replace (7 + 2 * k - List.length
               [Ev_fopen (g_file_peek_path file) true; Ev_fread 0 4 1 1;
                Ev_fseek 772 0; Ev_fread 772 4 1 1; Ev_fread 776 4 1 1;
                Ev_image_new w h; Ev_malloc (w * 8) true])%nat
      with (2 * k)%nat by (cbn [List.length]; lia).
    rewrite nth_error_app1 by lia. exact Hread.
  - rewrite nth_error_app2 by lia.
    replace (List.length (st_trace s) + 7 + 2 * k + 1
             - List.length (st_trace s))%nat
      with (7 + (2 * k + 1))%nat by lia.
    rewrite nth_error_app2 by (cbn [List.length]; lia).
    replace (7 + (2 * k + 1) - List.length
               [Ev_fopen (g_file_peek_path file) true; Ev_fread 0 4 1 1;
                Ev_fseek 772 0; Ev_fread 772 4 1 1; Ev_fread 776 4 1 1;
                Ev_image_new w h; Ev_malloc (w * 8) true])%nat
      with (2 * k + 1)%nat by (cbn [List.length]; lia).
    rewrite nth_error_app1 by lia. rewrite Hwrite, Z.add_0_l. reflexivity.
  - rewrite !filter_app, !length_app.
    rewrite (row_events_freads (Z.to_nat h)). cbn. lia.
Qed.

End BodyFurther.

(** * Instances of the further properties *)

Lemma created_procedure_witness :
  let p := mkProcedure "file-dpx-load" GIMP_PDB_PROC_TYPE_PLUGIN
             (dpx_load linux_amd64) "DPX"
             "Load file in the Dpx file format"
             "Load file in the Dpx file format"
             "file-dpx-load" "Alex S." "Alex S." "2023"
             "dpx" "0,string,SDPX" in
  dpx_create_procedure linux_amd64 "file-dpx-load" = Some p /\
  rv_status (fst (p_run p a_file (entry (disk scenario1) 0 [])))
  = GIMP_PDB_EXECUTION_ERROR /\
  rv_image (fst (p_run p a_file (entry (disk scenario1) 0 []))) = None /\
  st_images (snd (p_run p a_file (entry (disk scenario1) 0 []))) = [].
Proof.
  split; [reflexivity|].
  apply (created_procedure_never_loads linux_amd64 "file-dpx-load" _ a_file
           (entry (disk scenario1) 0 [])).
  reflexivity.
Defined.

Lemma body_decodes_xpds_witness :
  firstn 4 scenario3 = magic_XPDS /\
  let r := run_with_body linux_amd64 scenario3 in
  yields_raster r 2 1 (file_rows 2 1 scenario3) /\
  st_error (snd r) = None /\
  st_fp (snd r) = None /\
  open_streams (st_trace (snd r)) = 0 /\
  (read_extent (st_trace (snd r)) <= 796)%nat.
Proof.
  split; [reflexivity|].
  apply (body_decodes_whatever_the_magic linux_amd64 a_file
           (entry (disk scenario3) 0 []) scenario3 2 1);
    try reflexivity; try (cbn; lia); vm_compute; lia.
Defined.

Lemma body_premature_witness :
  let r := run_with_body linux_amd64 scenario2 in
  fails_with r PrematureEOF /\
  st_fp (snd r) <> None /\
  open_streams (st_trace (snd r)) = 1 /\
  filter is_free (st_trace (snd r)) = [] /\
  List.length (st_images (snd r)) = 1%nat.
Proof.
  apply (body_premature_end_releases_nothing linux_amd64 a_file
           (entry (disk scenario2) 0 []) scenario2 2 1);
    try reflexivity; try (cbn; lia); vm_compute; lia.
Defined.

Lemma body_large_dimensions_witness :
  let r := run_with_body linux_amd64 huge_width in
  fst r = None /\
  st_error (snd r)
  = Some (mkGError GIMP_PLUG_IN_ERROR 0
            "Image dimensions too large: width -1 x height 1") /\
  st_fp (snd r) = None /\
  open_streams (st_trace (snd r)) = 0 /\
  st_images (snd r) = [] /\
  filter is_malloc (st_trace (snd r)) = [].
Proof.
  apply (body_rejects_large_dimensions linux_amd64 a_file
           (entry (disk huge_width) 0 []) huge_width 0xFFFFFFFF 1);
    try reflexivity; try (vm_compute; lia).
  left. cbn. lia.
Defined.

Lemma body_round_trip_witness :
  yields_raster (run_with_body linux_amd64 (encode_dpx 1 1 one_pixel))
    1 1 one_pixel /\
  file_rows 1 1 (encode_dpx 1 1 one_pixel) = one_pixel.
Proof.
  apply (body_round_trip linux_amd64 a_file
           (entry (disk (encode_dpx 1 1 one_pixel)) 0 []) 1 1 one_pixel);
    try reflexivity; try (cbn; lia).
  split; [reflexivity|]. repeat constructor; cbn; lia.
Defined.

Lemma body_short_header_witness :
  let r := run_with_body linux_amd64 (magic_SDPX ++ repeat x00 100) in
  fst r = None /\
  st_error (snd r)
  = Some (mkGError G_FILE_ERROR 24 "Failed to read Dpx image dimensions") /\
  st_fp (snd r) = None /\
  open_streams (st_trace (snd r)) = 0 /\
  st_images (snd r) = [].
Proof.
  apply (body_short_header linux_amd64 a_file
           (entry (disk (magic_SDPX ++ repeat x00 100)) 0 [])
           (magic_SDPX ++ repeat x00 100));
    try reflexivity. vm_compute. lia.
Defined.

Lemma body_allocation_failure_witness :
  (let r := run_with_body small_heap scenario1 in
   fails_with r OutOfMemory /\
   st_fp (snd r) = None /\
   open_streams (st_trace (snd r)) = 0 /\
   (read_extent (st_trace (snd r)) <= 780)%nat /\
   List.length (st_images (snd r)) = 1%nat) /\
  (let r := run_with_body linux_amd64
              (magic_SDPX ++ repeat x00 768 ++ be32_bytes 0 ++ be32_bytes 1)
   in
   fails_with r OutOfMemory /\
   st_fp (snd r) = None /\
   open_streams (st_trace (snd r)) = 0 /\
   (read_extent (st_trace (snd r)) <= 780)%nat /\
   List.length (st_images (snd r)) = 0%nat).
Proof.
  split.
  - apply (body_allocation_failure small_heap a_file
             (entry (disk scenario1) 0 []) scenario1 2 1);
      try reflexivity; try (cbn; lia); try (vm_compute; lia).
  - apply (body_allocation_failure linux_amd64 a_file
             (entry (disk (magic_SDPX ++ repeat x00 768 ++ be32_bytes 0
                             ++ be32_bytes 1)) 0 [])
             (magic_SDPX ++ repeat x00 768 ++ be32_bytes 0 ++ be32_bytes 1)
             0 1);
      try reflexivity; try (cbn; lia); try (vm_compute; lia).
Defined.


Lemma body_rows_in_order_witness :
  let tr := st_trace (snd (run_with_body linux_amd64 scenario1)) in
  nth_error tr 7 = Some (Ev_fread 780 16 1 1) /\
  nth_error tr 8 = Some (Ev_buffer_set 0) /\
  List.length (filter is_fread tr) = 4%nat.
Proof.
  apply (body_reads_rows_in_order linux_amd64 a_file
           (entry (disk scenario1) 0 []) scenario1 2 1 0);
    try reflexivity; try (cbn; lia); vm_compute; lia.
Defined.

Lemma open_failure_witness :
  let r := dpx_load linux_amd64 a_missing_file (entry (disk scenario1) 0 []) in
  let e := mkGError G_FILE_ERROR 4
             "Could not open 'none.dpx' for reading: No such file or directory"
  in
  fst r = mkValues GIMP_PDB_EXECUTION_ERROR (Some e) None /\
  error_kind e = Some IOError /\
  st_fp (snd r) = None /\
  st_trace (snd r) = [Ev_fopen "/tmp/none.dpx" false].
Proof.
  apply (dpx_load_reports_open_failure linux_amd64 a_missing_file
           (entry (disk scenario1) 0 []) ENOENT).
  reflexivity.
Defined.
